(** * EventEmitter: a shallow embedding of [src/events.ts]

    The emitter keeps one table [_events] from event type to the array of
    handlers listening on it.  A handler is a JavaScript function object: it
    has an identity, carries the emitter-managed property [_once], and can be
    called with the event record.

    Modelling choices, all read off the source:

    - [_events] is a finite map keyed by the event-type string: the object is
      used as a map of its own properties, as its declared type
      [Record<string, EventHandler[] | undefined>] says (names it inherits,
      such as ["constructor"], are not event types here); the value under a
      key is the array stored there.  Every array is reachable from the
      table only, so the in-place updates [push] and [splice] are written as
      updates of the table entry; the array [emit] iterates is the one under
      [type] all along.
    - a function object is named by a number; its [_once] property lives in a
      store shared by every registration of that function ([None] is
      [undefined]).
    - the arguments [type] and [handler] are untyped at run time.  The code
      observes a [type] only through [== null], [typeof type === 'string']
      and its use as a property key, and a [handler] only through [== null],
      [typeof handler === 'function'], identity, [_once] and the call; the
      two argument types below carry exactly that.
    - calling a handler is recorded in the log [calls], together with the
      fields of the event record at the moment of the call.  Handlers are
      opaque callbacks: they return normally and do not call back into the
      emitter or write to the event record.
    - [Date.now()] is an input of [emit].

    Where the model stops.  The table is [new Events()], an object whose
    prototype is [Object.prototype].  For a [type] that is not an own
    property, [this._events[type]] finds what the prototype has under that
    name: for ["constructor"], ["hasOwnProperty"], ["__proto__"] and the
    like it is not an array, [addListener] throws at [handlers.includes] and
    [emit] throws at the [for ... of] unless the value's [length] is 0.  The
    finite map reads [None] there.  [own_lookup type w] says that the lookup
    of [type] is decided by own properties; statements that say an operation
    on [type] returns carry it as a hypothesis unless their other hypotheses
    already give [type] an array of its own.  Likewise the write
    [handler._once = ...] is taken to succeed: handlers are ordinary
    (extensible) function objects. *)

From stdpp Require Import gmap strings list fin_maps.

Abbreviation Fn := nat.

(** The [type] argument as the code observes it. *)
Inductive TypeArg : Type :=
  | TUndefined                  (* argument omitted, or [undefined] *)
  | TNull
  | TStr (s : string)
  | TOther (key : string).      (* any other value; [key] is its property key *)

(** The [handler] argument as the code observes it. *)
Inductive HandlerArg : Type :=
  | HUndefined
  | HNull
  | HFun (f : Fn)
  | HOther.                     (* any other value: not callable, not nullish *)

(** The payload [data: any]. *)
Inductive Data : Type :=
  | DUndefined
  | DNum (z : Z)
  | DStr (s : string).

Definition isValidType (type : TypeArg) : bool :=
  match type with TStr _ => true | _ => false end.

Definition isValidHandler (handler : HandlerArg) : bool :=
  match handler with HFun _ => true | _ => false end.

(** [x == null] *)
Definition type_is_nullish (type : TypeArg) : bool :=
  match type with TUndefined | TNull => true | _ => false end.

Definition handler_is_nullish (handler : HandlerArg) : bool :=
  match handler with HUndefined | HNull => true | _ => false end.

(** The property key [this._events[type]] reads or writes. *)
Definition property_key (type : TypeArg) : string :=
  match type with
  | TUndefined => "undefined"
  | TNull => "null"
  | TStr s => s
  | TOther key => key
  end.

Module Event.

Record t : Type := mk {
  type : string;
  data : Data;
  timestamp : Z;
  once : bool
}.

(** [new Event(type, data)]: [once] defaults to [false], the timestamp is
    the clock reading. *)
Definition new (type : string) (data : Data) (now : Z) : t :=
  {| type := type; data := data; timestamp := now; once := false |}.

(** [event.once = true] *)
Definition set_once (b : bool) (e : t) : t :=
  {| type := type e; data := data e; timestamp := timestamp e; once := b |}.

End Event.

(** ** Arrays of handlers *)

(** [handlers.includes(handler)] *)
Fixpoint includes (handlers : list Fn) (handler : Fn) : bool :=
  match handlers with
  | [] => false
  | fn :: rest => if Nat.eqb fn handler then true else includes rest handler
  end.

(** [handlers.splice(start, deleteCount)], the array left behind. *)
Definition splice (handlers : list Fn) (start deleteCount : nat) : list Fn :=
  take start handlers ++ drop (start + deleteCount) handlers.

(** The scan of [off]: [rest] is what lies at index [i] and beyond; the first
    [fn === handler] splices that index out and breaks. *)
Fixpoint off_scan (handlers rest : list Fn) (handler : Fn) (i : nat) : list Fn :=
  match rest with
  | [] => handlers
  | fn :: rest' =>
      if Nat.eqb fn handler then splice handlers i 1
      else off_scan handlers rest' handler (S i)
  end.

(** ** The emitter and the function objects it touches *)

Record World : Type := mkWorld {
  _events : gmap string (list Fn);   (* the emitter's table *)
  _once : gmap Fn bool;              (* [handler._once] of each function *)
  calls : list (Fn * Event.t)        (* handler invocations, oldest first *)
}.

Definition set_events (ev : gmap string (list Fn)) (w : World) : World :=
  {| _events := ev; _once := _once w; calls := calls w |}.

Definition set_flag (handler : Fn) (b : bool) (w : World) : World :=
  {| _events := _events w; _once := <[handler := b]> (_once w); calls := calls w |}.

Definition add_calls (cs : list (Fn * Event.t)) (w : World) : World :=
  {| _events := _events w; _once := _once w; calls := calls w ++ cs |}.

(** [new EventEmitter()], before any handler has run. *)
Definition new_world : World :=
  {| _events := ∅; _once := ∅; calls := [] |}.

(** The array under [type], read as empty when there is none. *)
Definition handlers_of (type : string) (w : World) : list Fn :=
  default [] (_events w !! type).

(** [handler._once ?? false] *)
Definition once_flag (handler : Fn) (w : World) : bool :=
  default false (_once w !! handler).

Module EventEmitter.

(** For a [type] whose lookup is not decided by own properties (see
    [own_lookup]) the code finds a non-array under [handlers] and throws at
    [handlers.includes]; the model has no such outcome. *)
Definition addListener (type : TypeArg) (handler : HandlerArg) (w : World)
  : bool * World :=
  if negb (isValidType type) then (false, w) else
  if negb (isValidHandler handler) then (false, w) else
  match type, handler with
  | TStr type, HFun handler =>
      let w :=
        match _events w !! type with
        | None => set_events (<[type := []]> (_events w)) w
        | Some _ => w
        end in
      let handlers := handlers_of type w in
      if includes handlers handler then (false, w)
      else
        let w := set_flag handler false w in
        (true, set_events (<[type := handlers ++ [handler]]> (_events w)) w)
  | _, _ => (false, w)
  end.

Definition once (type : TypeArg) (handler : HandlerArg) (w : World)
  : bool * World :=
  let '(ret, w) := addListener type handler w in
  match ret, handler with
  | true, HFun handler => (ret, set_flag handler true w)
  | _, _ => (ret, w)
  end.

Definition off (type : TypeArg) (handler : HandlerArg) (w : World) : World :=
  if type_is_nullish type then set_events ∅ w else
  if handler_is_nullish handler then
    set_events (<[property_key type := []]> (_events w)) w
  else
  if negb (isValidType type) then w else
  if negb (isValidHandler handler) then w else
  match type, handler with
  | TStr type, HFun handler =>
      match _events w !! type with
      | None => w
      | Some handlers =>
          if Nat.eqb (length handlers) 0 then w
          else set_events
                 (<[type := off_scan handlers handlers handler 0]> (_events w)) w
      end
  | _, _ => w
  end.

(** The body of the [for ... of] loop of [emit], for one [handler].  The
    arrays hold functions only ([addListener] is the only writer), so the
    defensive [isValidHandler] test never fires. *)
Definition dispatch (type : string) (handler : Fn) (st : Event.t * World)
  : Event.t * World :=
  let '(event, w) := st in
  if negb (isValidHandler (HFun handler)) then (event, w) else
  let event := if once_flag handler w then Event.set_once true event else event in
  let w := add_calls [(handler, event)] w in
  let w := if Event.once event then off (TStr type) (HFun handler) w else w in
  (event, w).

(** [for (const handler of handlers)]: the array iterator keeps an index
    [i] into the live array; it stops as soon as [i] is not below the
    current length, and otherwise yields [handlers[i]] and moves to
    [i + 1].  [None] is "out of fuel". *)
Fixpoint emit_loop (fuel : nat) (type : string) (event : Event.t) (i : nat)
    (w : World) : option World :=
  match handlers_of type w !! i with
  | None => Some w
  | Some handler =>
      match fuel with
      | 0 => None
      | S fuel =>
          let '(event, w) := dispatch type handler (event, w) in
          emit_loop fuel type event (S i) w
      end
  end.

(** [None] is "out of fuel" and never happens ([emit_returns]).  For a
    [type] whose lookup is not decided by own properties (see [own_lookup])
    the code finds a non-array under [handlers] and throws at the
    [for ... of] unless its [length] is 0; the model has no such outcome. *)
Definition emit (type : TypeArg) (data : Data) (now : Z) (w : World)
  : option World :=
  if negb (isValidType type) then Some w else
  match type with
  | TStr type =>
      match _events w !! type with
      | None => Some w
      | Some handlers =>
          if Nat.eqb (length handlers) 0 then Some w
          else emit_loop (length handlers) type (Event.new type data now) 0 w
      end
  | _ => Some w
  end.

Definition on (type : TypeArg) (handler : HandlerArg) (w : World)
  : bool * World :=
  addListener type handler w.

Definition removeListener (type : TypeArg) (handler : HandlerArg) (w : World)
  : World :=
  off type handler w.

End EventEmitter.

Import EventEmitter.

(** * Specification vocabulary *)

(** What the scan of [off] leaves of an array: the first entry identical to
    [handler] is gone, the others keep their order. *)
Fixpoint remove_first (handler : Fn) (handlers : list Fn) : list Fn :=
  match handlers with
  | [] => []
  | fn :: rest =>
      if Nat.eqb fn handler then rest else fn :: remove_first handler rest
  end.

(** What successive handlers see in [event.once]: the flag of the shared
    record is raised by the first handler whose [_once] is true and is never
    lowered again.  [o] is the value before the first of [handlers] runs. *)
Fixpoint observed (flags : gmap Fn bool) (o : bool) (handlers : list Fn)
  : list bool :=
  match handlers with
  | [] => []
  | handler :: rest =>
      let o := orb o (default false (flags !! handler)) in
      o :: observed flags o rest
  end.

(** A logged call carries the type, payload and timestamp of [event]. *)
Definition same_record (event : Event.t) (c : Fn * Event.t) : Prop :=
  Event.type c.2 = Event.type event
  ∧ Event.data c.2 = Event.data event
  ∧ Event.timestamp c.2 = Event.timestamp event.

(** No handler listening on [type] has a true [_once]. *)
Definition no_pending_once (type : string) (w : World) : Prop :=
  ∀ handler, handler ∈ handlers_of type w → once_flag handler w = false.

(** Under every type, a handler occurs at most once. *)
Definition registry_unique (w : World) : Prop :=
  ∀ type, NoDup (handlers_of type w).

(** What one pass of [emit] does to an array without duplicates, as a
    function of the array alone.  [o] is [event.once] so far; [skip] says
    that the entry at hand slid into the slot of a handler just spliced out,
    so the iterator steps over it.  The result pairs the handlers called,
    each with the [once] it sees, with the entries left in the array. *)
Fixpoint walk (flags : gmap Fn bool) (o skip : bool) (handlers : list Fn)
  : list (Fn * bool) * list Fn :=
  match handlers with
  | [] => ([], [])
  | handler :: rest =>
      if skip then
        let '(cs, kept) := walk flags o false rest in (cs, handler :: kept)
      else
        let o := orb o (default false (flags !! handler)) in
        let '(cs, kept) := walk flags o o rest in
        ((handler, o) :: cs, if o then kept else handler :: kept)
  end.

(** Every other entry of an array, starting with the first one when
    [take_it] is true and with the second one otherwise. *)
Fixpoint alternate (take_it : bool) (handlers : list Fn) : list Fn :=
  match handlers with
  | [] => []
  | handler :: rest =>
      if take_it then handler :: alternate false rest else alternate true rest
  end.

(** Every handler listening somewhere has had its [_once] written. *)
Definition flags_defined (w : World) : Prop :=
  ∀ type handler, handler ∈ handlers_of type w → is_Some (_once w !! handler).

(** One operation of the emitter. *)
Inductive step : World → World → Prop :=
  | step_addListener ty h w : step w (addListener ty h w).2
  | step_on ty h w : step w (on ty h w).2
  | step_once ty h w : step w (once ty h w).2
  | step_off ty h w : step w (off ty h w)
  | step_removeListener ty h w : step w (removeListener ty h w)
  | step_emit ty data now w w' : emit ty data now w = Some w' → step w w'.

(** What a new emitter can become. *)
Inductive reachable : World → Prop :=
  | reachable_new : reachable new_world
  | reachable_step w w' : reachable w → step w w' → reachable w'.

(** Modelled from the ECMAScript standard: the names every object finds on
    [Object.prototype].  The source has no table of them; they are what
    [new Events()] inherits. *)
Definition object_prototype_names : list string :=
  [ "constructor"; "__defineGetter__"; "__defineSetter__"; "hasOwnProperty";
    "__lookupGetter__"; "__lookupSetter__"; "isPrototypeOf";
    "propertyIsEnumerable"; "toString"; "valueOf"; "__proto__";
    "toLocaleString" ]%string.

(** [this._events[type]] is decided by the table's own properties: the
    prototype is still [Object.prototype] (nothing was ever stored under
    ["__proto__"], which would replace it), and [type] either has an array
    of its own or is not a name found on the prototype. *)
Definition own_lookup (type : string) (w : World) : bool :=
  match _events w !! "__proto__"%string with
  | Some _ => false
  | None =>
      match _events w !! type with
      | Some _ => true
      | None => negb (existsb (String.eqb type) object_prototype_names)
      end
  end.

(** * Sample registries *)

(** A registry with three listeners, the first of them one-shot. *)
Definition w_three : World :=
  let w := (once (TStr "tick") (HFun 1) new_world).2 in
  let w := (on (TStr "tick") (HFun 2) w).2 in
  (on (TStr "tick") (HFun 3) w).2.

(** A registry with one listener on ["save"]. *)
Definition w_save : World := (on (TStr "save") (HFun 1) new_world).2.

(** Two, then four, one-shot listeners on ["load"]. *)
Definition w_two_once : World :=
  let w := (once (TStr "load") (HFun 1) new_world).2 in
  (once (TStr "load") (HFun 2) w).2.

Definition w_four_once : World :=
  let w := (once (TStr "load") (HFun 3) w_two_once).2 in
  (once (TStr "load") (HFun 4) w).2.

(** A function registered one-shot on ["a"], then persistent on ["b"], behind
    a one-shot and a persistent listener of ["a"]. *)
Definition w_cross : World :=
  let w := (once (TStr "a") (HFun 7) new_world).2 in
  let w := (on (TStr "a") (HFun 8) w).2 in
  let w := (once (TStr "a") (HFun 9) w).2 in
  (on (TStr "b") (HFun 9) w).2.

(** A one-shot listener on ["tick"], then three persistent ones. *)
Definition w_one_shot_then_three : World :=
  let w := (once (TStr "tick") (HFun 10) new_world).2 in
  let w := (on (TStr "tick") (HFun 1) w).2 in
  let w := (on (TStr "tick") (HFun 2) w).2 in
  (on (TStr "tick") (HFun 3) w).2.

(** One listener registered under the string ["123"]. *)
Definition w_digits : World := (on (TStr "123") (HFun 1) new_world).2.

(** * Arrays: membership, removal of the first match *)

Section Arrays.

Implicit Types (handlers rest pre : list Fn) (handler fn : Fn).

Lemma includes_true handlers handler :
  includes handlers handler = true ↔ handler ∈ handlers.
Proof.
  induction handlers as [|fn rest IH]; simpl.
  - split; [discriminate | intros Hin; by apply elem_of_nil in Hin].
  - destruct (Nat.eqb_spec fn handler) as [->|Hne].
    + split; [intros _; left | done].
    + rewrite IH, elem_of_cons.
      split; [by right | intros [Heq|Hin]; [congruence | done]].
Qed.

Lemma includes_false handlers handler :
  includes handlers handler = false ↔ handler ∉ handlers.
Proof.
  rewrite <- includes_true. destruct (includes handlers handler); naive_solver.
Qed.

Lemma off_scan_from pre rest handler :
  off_scan (pre ++ rest) rest handler (length pre)
  = pre ++ remove_first handler rest.
Proof.
  revert pre. induction rest as [|fn rest IH]; intros pre; simpl.
  - done.
  - destruct (Nat.eqb fn handler).
    + unfold splice. rewrite take_app_length.
      replace (length pre + 1) with (length (pre ++ [fn]))
        by (rewrite length_app; simpl; lia).
      by rewrite (cons_middle fn pre rest), app_assoc, drop_app_length.
    + specialize (IH (pre ++ [fn])).
      rewrite length_app in IH. simpl in IH.
      replace (length pre + 1) with (S (length pre)) in IH by lia.
      rewrite <- app_assoc in IH. simpl in IH. by rewrite IH, <- app_assoc.
Qed.

Lemma off_scan_remove_first handlers handler :
  off_scan handlers handlers handler 0 = remove_first handler handlers.
Proof. apply (off_scan_from [] handlers handler). Qed.

Lemma remove_first_absent handler handlers :
  handler ∉ handlers → remove_first handler handlers = handlers.
Proof.
  induction handlers as [|fn rest IH]; simpl; [done|].
  rewrite not_elem_of_cons. intros [Hne Hnin].
  destruct (Nat.eqb_spec fn handler); [congruence|]. by rewrite IH.
Qed.

Lemma remove_first_split handler l1 l2 :
  handler ∉ l1 → remove_first handler (l1 ++ handler :: l2) = l1 ++ l2.
Proof.
  induction l1 as [|fn rest IH]; simpl.
  - intros _. by rewrite Nat.eqb_refl.
  - rewrite not_elem_of_cons. intros [Hne Hnin].
    destruct (Nat.eqb_spec fn handler); [congruence|]. by rewrite IH.
Qed.

Lemma remove_first_sublist handler handlers :
  sublist (remove_first handler handlers) handlers.
Proof.
  induction handlers as [|fn rest IH]; simpl; [done|].
  destruct (Nat.eqb fn handler).
  - by apply sublist_cons.
  - by apply sublist_skip.
Qed.

Lemma remove_first_NoDup handler handlers :
  NoDup handlers → NoDup (remove_first handler handlers).
Proof. intros Hnd. eapply sublist_NoDup; [done | apply remove_first_sublist]. Qed.

Lemma remove_first_length handler handlers :
  length handlers ≤ S (length (remove_first handler handlers)).
Proof.
  induction handlers as [|fn rest IH]; simpl; [lia|].
  destruct (Nat.eqb fn handler); simpl; lia.
Qed.

Lemma remove_first_gone handler handlers :
  NoDup handlers → handler ∉ remove_first handler handlers.
Proof.
  induction 1 as [|fn rest Hnin Hnd IH]; simpl.
  - apply not_elem_of_nil.
  - destruct (Nat.eqb_spec fn handler) as [->|Hne]; [done|].
    rewrite not_elem_of_cons. split; [congruence | done].
Qed.

Lemma remove_first_other handler fn handlers :
  fn ≠ handler → fn ∈ handlers → fn ∈ remove_first handler handlers.
Proof.
  intros Hne. induction handlers as [|x rest IH]; simpl; [done|].
  rewrite elem_of_cons. intros [->|Hin].
  - destruct (Nat.eqb_spec x handler); [congruence | left].
  - destruct (Nat.eqb x handler); [done | right; auto].
Qed.

End Arrays.

(** * The operations, in closed form *)

Section Operations.

Implicit Types (w : World) (type : string) (handler : Fn).

Lemma set_events_id w : set_events (_events w) w = w.
Proof. by destruct w. Qed.

Lemma handlers_of_lookup type w handlers :
  _events w !! type = Some handlers → handlers_of type w = handlers.
Proof. unfold handlers_of. by intros ->. Qed.

Lemma handlers_of_set_events_eq type handlers m w :
  handlers_of type (set_events (<[type := handlers]> m) w) = handlers.
Proof. unfold handlers_of. simpl. by rewrite lookup_insert_eq. Qed.

Lemma handlers_of_set_events_ne type type' handlers w :
  type ≠ type' →
  handlers_of type' (set_events (<[type := handlers]> (_events w)) w)
  = handlers_of type' w.
Proof. intros Hne. unfold handlers_of. simpl. by rewrite lookup_insert_ne. Qed.

(** Two-argument [off] on a string and a function. *)
Lemma off_handler type handler w :
  off (TStr type) (HFun handler) w =
    match _events w !! type with
    | None => w
    | Some handlers =>
        set_events (<[type := remove_first handler handlers]> (_events w)) w
    end.
Proof.
  unfold off. simpl. destruct (_events w !! type) as [handlers|] eqn:Hl; [|done].
  rewrite off_scan_remove_first. destruct handlers as [|fn rest]; [|done].
  simpl. by rewrite insert_id, set_events_id.
Qed.

Lemma off_handler_handlers type handler w :
  handlers_of type (off (TStr type) (HFun handler) w)
  = remove_first handler (handlers_of type w).
Proof.
  rewrite off_handler. unfold handlers_of at 2.
  destruct (_events w !! type) as [handlers|] eqn:Hl; simpl.
  - apply handlers_of_set_events_eq.
  - unfold handlers_of. by rewrite Hl.
Qed.

Lemma off_handler_other type type' handler w :
  type ≠ type' →
  _events (off (TStr type) (HFun handler) w) !! type' = _events w !! type'.
Proof.
  intros Hne. rewrite off_handler.
  destruct (_events w !! type) as [handlers|]; [|done].
  simpl. by rewrite lookup_insert_ne.
Qed.

Lemma off_once (ty : TypeArg) (h : HandlerArg) w :
  _once (off ty h w) = _once w.
Proof.
  unfold off. repeat case_match; done.
Qed.

Lemma off_calls (ty : TypeArg) (h : HandlerArg) w :
  calls (off ty h w) = calls w.
Proof.
  unfold off. repeat case_match; done.
Qed.

(** [addListener] on a string and a function: a duplicate is refused and
    nothing changes. *)
Lemma addListener_present type handler w :
  handler ∈ handlers_of type w →
  addListener (TStr type) (HFun handler) w = (false, w).
Proof.
  intros Hin. unfold addListener. simpl.
  destruct (_events w !! type) as [handlers|] eqn:Hl.
  - apply includes_true in Hin. by rewrite Hin.
  - unfold handlers_of in Hin. rewrite Hl in Hin. by apply elem_of_nil in Hin.
Qed.

(** Otherwise the flag is cleared and the handler goes to the end. *)
Lemma addListener_absent type handler w :
  handler ∉ handlers_of type w →
  addListener (TStr type) (HFun handler) w =
    (true, {| _events := <[type := handlers_of type w ++ [handler]]> (_events w);
              _once := <[handler := false]> (_once w);
              calls := calls w |}).
Proof.
  intros Hnin. unfold addListener. simpl.
  destruct (_events w !! type) as [handlers|] eqn:Hl.
  - apply includes_false in Hnin. by rewrite Hnin.
  - rewrite handlers_of_set_events_eq. simpl.
    unfold handlers_of. rewrite Hl. simpl.
    unfold set_events, set_flag. simpl. by rewrite insert_insert_eq.
Qed.

Lemma addListener_true type handler w w' :
  addListener (TStr type) (HFun handler) w = (true, w') →
  handler ∉ handlers_of type w.
Proof.
  intros Hadd Hin. rewrite addListener_present in Hadd by done. congruence.
Qed.

(** [once] on a string and a function. *)
Lemma once_present type handler w :
  handler ∈ handlers_of type w →
  once (TStr type) (HFun handler) w = (false, w).
Proof. intros Hin. unfold once. by rewrite addListener_present. Qed.

Lemma once_absent type handler w :
  handler ∉ handlers_of type w →
  once (TStr type) (HFun handler) w =
    (true, {| _events := <[type := handlers_of type w ++ [handler]]> (_events w);
              _once := <[handler := true]> (_once w);
              calls := calls w |}).
Proof.
  intros Hnin. unfold once. rewrite addListener_absent by done.
  unfold set_flag. simpl. by rewrite insert_insert_eq.
Qed.

Lemma once_true type handler w w' :
  once (TStr type) (HFun handler) w = (true, w') →
  handler ∉ handlers_of type w.
Proof.
  intros Honce Hin. rewrite once_present in Honce by done. congruence.
Qed.

(** What a successful registration leaves behind. *)
Lemma addListener_true_inv type handler w w' :
  addListener (TStr type) (HFun handler) w = (true, w') →
  (handler ∉ handlers_of type w)
  ∧ handlers_of type w' = handlers_of type w ++ [handler]
  ∧ (∀ type', type ≠ type' → _events w' !! type' = _events w !! type')
  ∧ _once w' = <[handler := false]> (_once w)
  ∧ calls w' = calls w.
Proof.
  intros Hadd. pose proof (addListener_true _ _ _ _ Hadd) as Hnin.
  rewrite addListener_absent in Hadd by done. injection Hadd as <-.
  repeat split; try done.
  - unfold handlers_of at 1. simpl. by rewrite lookup_insert_eq.
  - intros type' Hne. simpl. by rewrite lookup_insert_ne.
Qed.

Lemma once_true_inv type handler w w' :
  once (TStr type) (HFun handler) w = (true, w') →
  (handler ∉ handlers_of type w)
  ∧ handlers_of type w' = handlers_of type w ++ [handler]
  ∧ (∀ type', type ≠ type' → _events w' !! type' = _events w !! type')
  ∧ _once w' = <[handler := true]> (_once w)
  ∧ calls w' = calls w.
Proof.
  intros Honce. pose proof (once_true _ _ _ _ Honce) as Hnin.
  rewrite once_absent in Honce by done. injection Honce as <-.
  repeat split; try done.
  - unfold handlers_of at 1. simpl. by rewrite lookup_insert_eq.
  - intros type' Hne. simpl. by rewrite lookup_insert_ne.
Qed.

Lemma once_flag_insert_eq handler b w w' :
  _once w' = <[handler := b]> (_once w) → once_flag handler w' = b.
Proof. unfold once_flag. intros ->. by rewrite lookup_insert_eq. Qed.

Lemma once_flag_insert_ne handler h b w w' :
  _once w' = <[handler := b]> (_once w) → h ≠ handler →
  once_flag h w' = once_flag h w.
Proof. unfold once_flag. intros -> Hne. by rewrite lookup_insert_ne. Qed.

End Operations.

(** * The dispatch loop *)

Section Dispatch.

Implicit Types (w : World) (type : string) (handler : Fn) (event : Event.t).

Lemma add_calls_add_calls cs1 cs2 w :
  add_calls cs2 (add_calls cs1 w) = add_calls (cs1 ++ cs2) w.
Proof. unfold add_calls. simpl. by rewrite <- app_assoc. Qed.

Lemma add_calls_nil w : add_calls [] w = w.
Proof. destruct w. unfold add_calls. simpl. by rewrite app_nil_r. Qed.

Lemma handlers_of_add_calls type cs w :
  handlers_of type (add_calls cs w) = handlers_of type w.
Proof. reflexivity. Qed.

Lemma dispatch_eq type handler event w :
  dispatch type handler (event, w) =
    let event' :=
      if once_flag handler w then Event.set_once true event else event in
    (event',
     if Event.once event'
     then off (TStr type) (HFun handler) (add_calls [(handler, event')] w)
     else add_calls [(handler, event')] w).
Proof. reflexivity. Qed.

(** One iteration: the event seen, the log, the flags, the other types,
    and what is left of the array. *)
Lemma dispatch_step type handler event w event' w' :
  dispatch type handler (event, w) = (event', w') →
  Event.once event' = orb (Event.once event) (once_flag handler w)
  ∧ same_record event (handler, event')
  ∧ calls w' = calls w ++ [(handler, event')]
  ∧ _once w' = _once w
  ∧ (∀ type', type ≠ type' → _events w' !! type' = _events w !! type')
  ∧ handlers_of type w' =
      (if Event.once event' then remove_first handler (handlers_of type w)
       else handlers_of type w).
Proof.
  rewrite dispatch_eq. simpl. intros [= <- <-].
  assert (Hrec : ∀ e, same_record event
            (handler, if once_flag handler w then Event.set_once true e else e)
            ↔ same_record event (handler, e)).
  { intros e. unfold same_record. by destruct (once_flag handler w). }
  split.
  { destruct (once_flag handler w), (Event.once event); done. }
  split; [by apply Hrec|].
  destruct (Event.once (if once_flag handler w then _ else _)) eqn:Ho.
  - rewrite off_calls, off_once, off_handler_handlers.
    repeat split; try done.
    intros type' Hne. by rewrite off_handler_other.
  - done.
Qed.

Lemma dispatch_length type handler event w event' w' :
  dispatch type handler (event, w) = (event', w') →
  length (handlers_of type w') ≤ length (handlers_of type w).
Proof.
  intros (_ & _ & _ & _ & _ & ->)%dispatch_step.
  destruct (Event.once event'); [|done].
  apply sublist_length, remove_first_sublist.
Qed.

(** The loop always comes to an end: each iteration moves the index up
    and never lengthens the array. *)
Lemma emit_loop_returns fuel type event i w :
  length (handlers_of type w) ≤ fuel + i →
  is_Some (emit_loop fuel type event i w).
Proof.
  revert event i w. induction fuel as [|fuel IH]; intros event i w Hlen;
    cbn [emit_loop].
  - rewrite lookup_ge_None_2 by lia. eauto.
  - destruct (handlers_of type w !! i) as [handler|] eqn:Hi; [|eauto].
    destruct (dispatch type handler (event, w)) as [event' w'] eqn:Hd.
    apply IH. apply dispatch_length in Hd. lia.
Qed.

Lemma emit_returns (ty : TypeArg) (data : Data) (now : Z) w :
  is_Some (emit ty data now w).
Proof.
  unfold emit. destruct ty as [| |type|key]; simpl; eauto.
  destruct (_events w !! type) as [handlers|] eqn:Hl; [|eauto].
  destruct (Nat.eqb (length handlers) 0); [eauto|].
  apply emit_loop_returns. rewrite (handlers_of_lookup _ _ _ Hl). lia.
Qed.

(** What a whole run of the loop does. *)
Lemma emit_loop_run fuel type event i w w' :
  emit_loop fuel type event i w = Some w' →
  ∃ cs,
    calls w' = calls w ++ cs
    ∧ _once w' = _once w
    ∧ (∀ type', type ≠ type' → _events w' !! type' = _events w !! type')
    ∧ sublist (handlers_of type w') (handlers_of type w)
    ∧ Forall (same_record event) cs
    ∧ map (λ c, Event.once c.2) cs
      = observed (_once w) (Event.once event) (map fst cs)
    ∧ (NoDup (handlers_of type w) →
       ∀ c, c ∈ cs → Event.once c.2 = true → c.1 ∉ handlers_of type w').
Proof.
  revert event i w. induction fuel as [|fuel IH]; intros event i w;
    cbn [emit_loop].
  - destruct (handlers_of type w !! i); [done|]. intros [= <-].
    exists []. rewrite app_nil_r. repeat split; try done.
    intros _ c Hc. by apply elem_of_nil in Hc.
  - destruct (handlers_of type w !! i) as [handler|] eqn:Hi.
    2:{ intros [= <-]. exists []. rewrite app_nil_r. repeat split; try done.
        intros _ c Hc. by apply elem_of_nil in Hc. }
    destruct (dispatch type handler (event, w)) as [event1 w1] eqn:Hd.
    intros Hloop.
    apply dispatch_step in Hd as (Ho & Hrec & Hcalls & Hflags & Hother & Hhs).
    apply IH in Hloop as (cs & Hcs & Hfl' & Hoth' & Hsub & Hall & Hobs & Hgone).
    assert (Hsub1 : sublist (handlers_of type w1) (handlers_of type w)).
    { rewrite Hhs. destruct (Event.once event1); [|done].
      apply remove_first_sublist. }
    exists ((handler, event1) :: cs). repeat split.
    + by rewrite Hcs, Hcalls, <- app_assoc.
    + congruence.
    + intros type' Hne. by rewrite Hoth', Hother.
    + by transitivity (handlers_of type w1).
    + constructor; [done|].
      destruct Hrec as (Ht & Hda & Hts). simpl in *.
      eapply Forall_impl; [exact Hall|].
      intros c (? & ? & ?). unfold same_record. repeat split; congruence.
    + simpl. rewrite Hflags in Hobs. unfold once_flag in Ho.
      rewrite <- Ho. by f_equal.
    + intros Hnd c Hc Honce. apply elem_of_cons in Hc as [->|Hc].
      * simpl in *. rewrite Honce in Hhs.
        intros Hin. eapply elem_of_sublist in Hin; [|exact Hsub].
        rewrite Hhs in Hin. by apply remove_first_gone in Hin.
      * apply Hgone; [|done..]. eapply sublist_NoDup; [exact Hnd | done].
Qed.

(** The same for [emit] itself, early returns included. *)
Lemma emit_run type data now w w' :
  emit (TStr type) data now w = Some w' →
  ∃ cs,
    calls w' = calls w ++ cs
    ∧ _once w' = _once w
    ∧ (∀ type', type ≠ type' → _events w' !! type' = _events w !! type')
    ∧ sublist (handlers_of type w') (handlers_of type w)
    ∧ Forall (same_record (Event.new type data now)) cs
    ∧ map (λ c, Event.once c.2) cs = observed (_once w) false (map fst cs)
    ∧ (NoDup (handlers_of type w) →
       ∀ c, c ∈ cs → Event.once c.2 = true → c.1 ∉ handlers_of type w').
Proof.
  assert (Hnil : Some w = Some w' →
            ∃ cs,
              calls w' = calls w ++ cs
              ∧ _once w' = _once w
              ∧ (∀ type', type ≠ type' → _events w' !! type' = _events w !! type')
              ∧ sublist (handlers_of type w') (handlers_of type w)
              ∧ Forall (same_record (Event.new type data now)) cs
              ∧ map (λ c, Event.once c.2) cs
                = observed (_once w) false (map fst cs)
              ∧ (NoDup (handlers_of type w) →
                 ∀ c, c ∈ cs → Event.once c.2 = true →
                      c.1 ∉ handlers_of type w')).
  { intros [= <-]. exists []. rewrite app_nil_r. repeat split; try done.
    intros _ c Hc. by apply elem_of_nil in Hc. }
  unfold emit. simpl.
  destruct (_events w !! type) as [handlers|]; [|done].
  destruct (Nat.eqb (length handlers) 0); [done|].
  apply emit_loop_run.
Qed.

End Dispatch.

(** * Runs over handlers that are not one-shot *)

Section Persistent.

Implicit Types (w : World) (type : string) (handler : Fn) (event : Event.t).

(** [k] handlers in a row with a false [_once], met while [event.once] is
    still false, are each called with the record unchanged and stay in the
    array. *)
Lemma emit_loop_persistent k fuel type event i w :
  Event.once event = false →
  (∀ handler, handler ∈ take k (drop i (handlers_of type w)) →
              once_flag handler w = false) →
  i + k ≤ length (handlers_of type w) →
  emit_loop (k + fuel) type event i w =
    emit_loop fuel type event (i + k)
      (add_calls (map (λ handler, (handler, event))
                    (take k (drop i (handlers_of type w)))) w).
Proof.
  intros Ho. revert i w. induction k as [|k IH]; intros i w Hflags Hlen.
  - simpl. by rewrite add_calls_nil, Nat.add_0_r.
  - destruct (lookup_lt_is_Some_2 (handlers_of type w) i) as [handler Hi];
      [lia|].
    rewrite (drop_S _ _ _ Hi) in Hflags |- *.
    change (S k + fuel) with (S (k + fuel)). cbn [emit_loop]. rewrite Hi.
    rewrite dispatch_eq. cbn zeta.
    rewrite (Hflags handler) by (simpl; left). rewrite Ho.
    rewrite (IH (S i)).
    + rewrite add_calls_add_calls. simpl.
      by replace (i + S k) with (S (i + k)) by lia.
    + intros h Hin. apply Hflags. simpl. by right.
    + rewrite handlers_of_add_calls. lia.
Qed.

(** A whole run when nothing on [type] is one-shot. *)
Lemma emit_no_pending_once type data now w :
  no_pending_once type w →
  emit (TStr type) data now w =
    Some (add_calls (map (λ handler, (handler, Event.new type data now))
                       (handlers_of type w)) w).
Proof.
  intros Hnp. unfold emit. simpl.
  destruct (_events w !! type) as [handlers|] eqn:Hl.
  2:{ unfold handlers_of. rewrite Hl. simpl. by rewrite add_calls_nil. }
  pose proof (handlers_of_lookup _ _ _ Hl) as Hhs.
  destruct handlers as [|fn rest].
  { simpl. rewrite Hhs. simpl. by rewrite add_calls_nil. }
  change (Nat.eqb (length (fn :: rest)) 0) with false. cbv iota.
  rewrite <- Hhs.
  replace (length (handlers_of type w))
    with (length (handlers_of type w) + 0) by lia.
  rewrite emit_loop_persistent; [|done| |simpl; lia].
  - rewrite drop_0, firstn_all. simpl.
    rewrite handlers_of_add_calls. by rewrite lookup_ge_None_2 by lia.
  - intros handler Hin. apply Hnp. rewrite drop_0, firstn_all in Hin. done.
Qed.

End Persistent.

(** * The registry invariant *)

Section Invariant.

Implicit Types (w : World).

Lemma registry_unique_new : registry_unique new_world.
Proof. intros type. unfold handlers_of. simpl. rewrite lookup_empty. constructor. Qed.

Lemma registry_unique_insert type handlers w :
  registry_unique w → NoDup handlers →
  registry_unique (set_events (<[type := handlers]> (_events w)) w).
Proof.
  intros Hu Hnd type'. destruct (decide (type = type')) as [<-|Hne].
  - by rewrite handlers_of_set_events_eq.
  - by rewrite handlers_of_set_events_ne.
Qed.

Lemma registry_unique_events w w' :
  _events w' = _events w → registry_unique w → registry_unique w'.
Proof. intros He Hu type. unfold handlers_of. rewrite He. apply Hu. Qed.

Lemma addListener_unique ty h w :
  registry_unique w → registry_unique (addListener ty h w).2.
Proof.
  intros Hu. destruct ty as [| |type|key], h as [| |handler|]; try done.
  destruct (decide (handler ∈ handlers_of type w)) as [Hin|Hnin].
  - by rewrite addListener_present.
  - rewrite addListener_absent by done. simpl.
    apply (registry_unique_events
             (set_events (<[type := handlers_of type w ++ [handler]]> (_events w)) w));
      [done|].
    apply registry_unique_insert; [done|].
    apply NoDup_app. split; [apply Hu|]. split; [|apply NoDup_singleton].
    intros x Hx ->%list_elem_of_singleton. done.
Qed.

Lemma once_unique ty h w :
  registry_unique w → registry_unique (once ty h w).2.
Proof.
  intros Hu. apply (addListener_unique ty h) in Hu. unfold once.
  destruct (addListener ty h w) as [[] w']; destruct h; done.
Qed.

Lemma off_unique ty h w :
  registry_unique w → registry_unique (off ty h w).
Proof.
  intros Hu. unfold off.
  destruct (type_is_nullish ty).
  { intros type. unfold handlers_of. simpl. rewrite lookup_empty. constructor. }
  destruct (handler_is_nullish h).
  { apply registry_unique_insert; [done | constructor]. }
  destruct ty as [| |type|key], h as [| |handler|]; try done. simpl.
  destruct (_events w !! type) as [handlers|] eqn:Hl; [|done].
  destruct (Nat.eqb (length handlers) 0); [done|].
  apply registry_unique_insert; [done|].
  rewrite off_scan_remove_first. apply remove_first_NoDup.
  rewrite <- (handlers_of_lookup _ _ _ Hl). apply Hu.
Qed.

Lemma emit_unique ty data now w w' :
  registry_unique w → emit ty data now w = Some w' → registry_unique w'.
Proof.
  intros Hu. destruct ty as [| |type|key]; try (by intros [= <-]).
  intros (cs & _ & _ & Hother & Hsub & _)%emit_run type'.
  destruct (decide (type = type')) as [<-|Hne].
  - eapply sublist_NoDup; [apply Hu | exact Hsub].
  - unfold handlers_of. rewrite Hother by done. apply Hu.
Qed.

End Invariant.

(** * A one-shot handler at the end of the array *)

Section OneShot.

Implicit Types (w : World) (type : string) (handler : Fn).

(** The handlers of [hs] are not one-shot, the last handler is: everybody
    is called, the last one with [once] raised, and it is spliced out. *)
Lemma emit_once_last type data now w hs handler :
  handlers_of type w = hs ++ [handler] →
  handler ∉ hs →
  (∀ h, h ∈ hs → once_flag h w = false) →
  once_flag handler w = true →
  emit (TStr type) data now w =
    Some (set_events (<[type := hs]> (_events w))
            (add_calls
               (map (λ h, (h, Event.new type data now)) hs
                ++ [(handler, Event.set_once true (Event.new type data now))])
               w)).
Proof.
  intros Hhs Hnin Hflags Hflag. unfold emit. simpl.
  destruct (_events w !! type) as [handlers|] eqn:Hl.
  2:{ unfold handlers_of in Hhs. rewrite Hl in Hhs. by destruct hs. }
  rewrite (handlers_of_lookup _ _ _ Hl) in Hhs. subst handlers.
  rewrite length_app. simpl.
  replace (Nat.eqb (length hs + 1) 0) with false
    by (symmetry; apply Nat.eqb_neq; lia).
  pose proof (handlers_of_lookup _ _ _ Hl) as Hhs.
  rewrite emit_loop_persistent; [|done|rewrite Hhs|rewrite Hhs, length_app; simpl; lia].
  2:{ intros h Hin. apply Hflags.
      by rewrite drop_0, take_app_length in Hin. }
  rewrite Hhs, drop_0, take_app_length. cbn [Nat.add].
  set (event := Event.new type data now).
  set (w1 := add_calls _ w).
  assert (Hhs1 : handlers_of type w1 = hs ++ [handler]) by done.
  cbn [emit_loop]. rewrite Hhs1, list_lookup_middle by done.
  rewrite dispatch_eq. cbn zeta.
  replace (once_flag handler w1) with true by done. simpl.
  rewrite off_handler.
  replace (_events (add_calls [(handler, Event.set_once true event)] w1) !! type)
    with (Some (hs ++ [handler])) by done.
  rewrite remove_first_split, app_nil_r by done.
  rewrite handlers_of_set_events_eq, lookup_ge_None_2 by lia.
  subst w1. by rewrite add_calls_add_calls.
Qed.

Lemma count_calls_absent handler (event : Event.t) hs :
  handler ∉ hs →
  filter (λ c : Fn * Event.t, c.1 = handler) (map (λ h, (h, event)) hs) = [].
Proof.
  induction hs as [|h hs IH]; [done|].
  rewrite not_elem_of_cons. intros [Hne Hnin]. simpl.
  rewrite filter_cons_False by (simpl; congruence). auto.
Qed.

End OneShot.

(** * The shared event record *)

Section SharedEvent.

Implicit Types (w : World) (type : string) (flags : gmap Fn bool).

Lemma observed_raised flags handlers :
  Forall (λ b, b = true) (observed flags true handlers).
Proof.
  induction handlers as [|handler rest IH]; simpl; constructor; done.
Qed.

Lemma once_all_true (cs : list (Fn * Event.t)) (bs : list bool) :
  map (λ c, Event.once c.2) cs = bs →
  Forall (λ b, b = true) bs →
  Forall (λ c, Event.once c.2 = true) cs.
Proof.
  intros <-. induction cs as [|c cs IH]; simpl; [constructor|].
  intros [Hc Hcs]%Forall_cons. constructor; auto.
Qed.

(** From the first call to a handler whose [_once] is true onwards, every
    call sees [once = true]. *)
Lemma observed_sticky flags o (cs1 cs2 : list (Fn * Event.t)) c :
  map (λ c, Event.once c.2) (cs1 ++ c :: cs2)
    = observed flags o (map fst (cs1 ++ c :: cs2)) →
  default false (flags !! c.1) = true →
  Forall (λ c', Event.once c'.2 = true) (c :: cs2).
Proof.
  revert o. induction cs1 as [|c1 cs1 IH]; intros o; simpl.
  - intros [= Hc Hcs] Hflag. rewrite Hflag, orb_true_r in Hc, Hcs.
    constructor; [done|].
    eapply once_all_true; [exact Hcs | apply observed_raised].
  - intros [= _ Hcs] Hflag. by eapply IH.
Qed.

End SharedEvent.

(** * The iterator and in-place removal *)

(** A one-shot handler in front of exactly one other handler: the first is
    called and spliced out, the second is passed over. *)
Lemma emit_one_shot_then_skip (type : string) (h1 h2 : Fn) (data : Data)
    (now : Z) (w : World) :
  handlers_of type w = [h1; h2] →
  once_flag h1 w = true →
  ∃ w',
    emit (TStr type) data now w = Some w'
    ∧ calls w' = calls w ++ [(h1, Event.set_once true (Event.new type data now))]
    ∧ handlers_of type w' = [h2].
Proof.
  intros Hhs Hflag. unfold emit. cbn [isValidType negb].
  destruct (_events w !! type) as [handlers|] eqn:Hl.
  2:{ unfold handlers_of in Hhs. by rewrite Hl in Hhs. }
  rewrite (handlers_of_lookup _ _ _ Hl) in Hhs. subst handlers.
  cbn [length Nat.eqb emit_loop]. rewrite (handlers_of_lookup _ _ _ Hl).
  cbn [lookup list_lookup].
  rewrite dispatch_eq, Hflag. cbn beta iota zeta.
  change (Event.once (Event.set_once true (Event.new type data now))) with true.
  cbn beta iota.
  assert (Hleft : handlers_of type
                    (off (TStr type) (HFun h1)
                       (add_calls
                          [(h1, Event.set_once true (Event.new type data now))] w))
                  = [h2]).
  { rewrite off_handler_handlers, handlers_of_add_calls,
      (handlers_of_lookup _ _ _ Hl).
    simpl. by rewrite Nat.eqb_refl. }
  rewrite Hleft. cbn [lookup list_lookup].
  eexists. split; [done|]. by rewrite off_calls.
Qed.

(** * Claims *)

(** C1 (the code departs from it): [emit] does not go through the array as
    it stood when the call began.  On a fresh emitter, [once('change', f1)]
    then [on('change', f2)] leave the array [[f1; f2]]; [emit('change')]
    calls [f1], splices it out, and the iterator, now at index 1 of the
    one-element array [[f2]], stops: [f2] was present when [emit] began and
    is never called. *)
Theorem emit_skips_handler_after_once_removal :
  let w1 := (once (TStr "change") (HFun 1) new_world).2 in
  let w2 := (on (TStr "change") (HFun 2) w1).2 in
  handlers_of "change" w2 = [1; 2]
  ∧ ∃ w3, emit (TStr "change") DUndefined 0 w2 = Some w3
          ∧ map fst (calls w3) = [1]
          ∧ handlers_of "change" w3 = [2].
Proof.
  split; [reflexivity|]. eexists. split; [vm_compute; reflexivity|].
  split; reflexivity.
Qed.

(** A one-shot handler registered on a type where no other pending one-shot
    handler listens: two [emit]s call it exactly once, the first one with
    [once = true] and after the handlers that were listening before it, and
    it is out of the array as soon as the first [emit] has returned. *)
Lemma once_handler_fires_once
    (type : string) (handler : Fn) (data1 data2 : Data) (now1 now2 : Z)
    (w w1 : World) :
  no_pending_once type w →
  once (TStr type) (HFun handler) w = (true, w1) →
  ∃ w2 w3 cs1 cs2,
    emit (TStr type) data1 now1 w1 = Some w2
    ∧ emit (TStr type) data2 now2 w2 = Some w3
    ∧ calls w2 = calls w1 ++ cs1
    ∧ calls w3 = calls w2 ++ cs2
    ∧ length (filter (λ c, c.1 = handler) (cs1 ++ cs2)) = 1
    ∧ (handler, Event.set_once true (Event.new type data1 now1)) ∈ cs1
    ∧ handler ∉ handlers_of type w2.
Proof.
  intros Hnp Honce. pose proof (once_true _ _ _ _ Honce) as Hnin.
  rewrite once_absent in Honce by done. injection Honce as <-.
  set (hs := handlers_of type w) in *.
  set (w1 := {| _events := _; _once := _; calls := calls w |}).
  assert (Hflags : ∀ h, h ∈ hs → once_flag h w1 = false).
  { intros h Hin. unfold once_flag. simpl.
    rewrite lookup_insert_ne by (intros ->; done). by apply Hnp. }
  assert (Hflag : once_flag handler w1 = true).
  { unfold once_flag. simpl. by rewrite lookup_insert_eq. }
  assert (Hhs : handlers_of type w1 = hs ++ [handler]).
  { unfold handlers_of at 1. simpl. by rewrite lookup_insert_eq. }
  pose proof (emit_once_last type data1 now1 w1 hs handler Hhs Hnin Hflags Hflag)
    as He1.
  set (cs1 := map _ hs ++ [_]) in He1.
  set (w2 := set_events _ _) in He1.
  assert (Hhs2 : handlers_of type w2 = hs) by apply handlers_of_set_events_eq.
  assert (Hnp2 : no_pending_once type w2).
  { intros h. rewrite Hhs2. apply Hflags. }
  pose proof (emit_no_pending_once type data2 now2 w2 Hnp2) as He2.
  rewrite Hhs2 in He2.
  eexists w2, _, cs1, _. split; [exact He1|]. split; [exact He2|].
  repeat split; try done.
  - subst cs1. rewrite <- app_assoc, !filter_app, !count_calls_absent by done.
    simpl. by rewrite filter_cons_True, filter_nil.
  - subst cs1. apply elem_of_app. right. apply list_elem_of_singleton. done.
  - by rewrite Hhs2.
Qed.

(** C3 (the code departs from it): a one-shot handler registered behind
    another pending one-shot handler is passed over.  After
    [once('load', f1)] and [once('load', f2)], both returning [true], the
    first [emit('load')] calls [f1] only and [f2] is still in the array when
    it returns.  With four one-shot handlers [f1 .. f4], the first [emit]
    calls [f1] and [f3], the second calls [f2]: [f4] has not been called at
    all after two [emit]s and is still listening. *)
Theorem once_handler_skipped_behind_one_shot :
  (once (TStr "load") (HFun 2) (once (TStr "load") (HFun 1) new_world).2).1 = true
  ∧ (∃ w1, emit (TStr "load") DUndefined 0 w_two_once = Some w1
           ∧ map fst (calls w1) = [1]
           ∧ handlers_of "load" w1 = [2])
  ∧ (∃ w1 w2, emit (TStr "load") DUndefined 0 w_four_once = Some w1
              ∧ emit (TStr "load") DUndefined 1 w1 = Some w2
              ∧ map fst (calls w1) = [1; 3]
              ∧ map fst (calls w2) = [1; 3; 2]
              ∧ handlers_of "load" w2 = [4]).
Proof.
  split; [reflexivity|]. split.
  - eexists. split; [vm_compute; reflexivity|]. split; reflexivity.
  - eexists _, _. split; [vm_compute; reflexivity|].
    split; [vm_compute; reflexivity|]. repeat split; reflexivity.
Qed.

(** Three handlers registered with [on] on a type where no handler is
    one-shot: [emit] calls all three, [h1] before [h2] before [h3], right
    after the handlers that were listening before them, each with the fresh
    record ([once = false]). *)
Lemma emit_follows_registration_order
    (type : string) (h1 h2 h3 : Fn) (data : Data) (now : Z)
    (w w1 w2 w3 : World) :
  no_pending_once type w →
  on (TStr type) (HFun h1) w = (true, w1) →
  on (TStr type) (HFun h2) w1 = (true, w2) →
  on (TStr type) (HFun h3) w2 = (true, w3) →
  ∃ w4,
    emit (TStr type) data now w3 = Some w4
    ∧ calls w4 =
        calls w3
        ++ map (λ h, (h, Event.new type data now)) (handlers_of type w)
        ++ [(h1, Event.new type data now);
            (h2, Event.new type data now);
            (h3, Event.new type data now)]
    ∧ NoDup (h1 :: h2 :: h3 :: [])
    ∧ (h1 ∉ handlers_of type w)
    ∧ (h2 ∉ handlers_of type w)
    ∧ (h3 ∉ handlers_of type w).
Proof.
  unfold on. intros Hnp H1 H2 H3.
  apply addListener_true_inv in H1 as (Hn1 & Hhs1 & _ & Hfl1 & Hc1).
  apply addListener_true_inv in H2 as (Hn2 & Hhs2 & _ & Hfl2 & Hc2).
  apply addListener_true_inv in H3 as (Hn3 & Hhs3 & _ & Hfl3 & Hc3).
  rewrite Hhs2, Hhs1 in Hn3. rewrite Hhs1 in Hn2.
  rewrite Hhs2, Hhs1, <- !app_assoc in Hhs3. simpl in Hhs3.
  apply not_elem_of_app in Hn2 as [Hn2 Hne12%not_elem_of_cons].
  apply not_elem_of_app in Hn3 as [[Hn3 Hne13%not_elem_of_cons]%not_elem_of_app
                                     Hne23%not_elem_of_cons].
  assert (Hnp3 : no_pending_once type w3).
  { intros h. rewrite Hhs3.
    destruct (decide (h = h3)) as [->|]; [intros _; by eapply once_flag_insert_eq|].
    rewrite (once_flag_insert_ne _ _ _ _ _ Hfl3) by done.
    destruct (decide (h = h2)) as [->|]; [intros _; by eapply once_flag_insert_eq|].
    rewrite (once_flag_insert_ne _ _ _ _ _ Hfl2) by done.
    destruct (decide (h = h1)) as [->|]; [intros _; by eapply once_flag_insert_eq|].
    rewrite (once_flag_insert_ne _ _ _ _ _ Hfl1) by done.
    rewrite elem_of_app. intros [Hin|Hin]; [by apply Hnp|].
    repeat (apply elem_of_cons in Hin as [Heq|Hin]; [done|]).
    by apply elem_of_nil in Hin. }
  eexists. split; [by apply emit_no_pending_once|].
  rewrite Hhs3, map_app. simpl. repeat split; try done.
  apply NoDup_ListNoDup. repeat constructor; simpl; intuition congruence.
Qed.

(** C4 (the code departs from it): three handlers registered with [on], in
    that order, are not all called when a one-shot handler is listening in
    front of them.  After [once('tick', f0)], [on('tick', f1)],
    [on('tick', f2)] and [on('tick', f3)], all returning [true], the array is
    [[f0; f1; f2; f3]]; [emit('tick')] calls [f0] and splices it out, passes
    over [f1], calls [f2] with [once = true] and splices it out, and passes
    over [f3]: [f1] and [f3] are never called, and [f2], registered with
    [on], is gone. *)
Theorem registration_order_broken_behind_one_shot :
  (on (TStr "tick") (HFun 1) (once (TStr "tick") (HFun 10) new_world).2).1 = true
  ∧ (on (TStr "tick") (HFun 2)
       (on (TStr "tick") (HFun 1) (once (TStr "tick") (HFun 10) new_world).2).2).1
    = true
  ∧ (on (TStr "tick") (HFun 3)
       (on (TStr "tick") (HFun 2)
          (on (TStr "tick") (HFun 1)
             (once (TStr "tick") (HFun 10) new_world).2).2).2).1 = true
  ∧ handlers_of "tick" w_one_shot_then_three = [10; 1; 2; 3]
  ∧ ∃ w', emit (TStr "tick") DUndefined 0 w_one_shot_then_three = Some w'
          ∧ map (λ c, (c.1, Event.once c.2)) (calls w') = [(10, true); (2, true)]
          ∧ handlers_of "tick" w' = [1; 3].
Proof.
  split; [reflexivity|]. split; [reflexivity|]. split; [reflexivity|].
  split; [reflexivity|].
  eexists. split; [vm_compute; reflexivity|]. split; reflexivity.
Qed.



(** C6, as stated, fails: [once('a', g)], [on('a', x)], then [once('a', h)]
    and [on('b', h)], both returning [true].  [h._once] is [false], yet
    [emit('a')] calls [g], which raises [once] on the shared record, and then
    [h], which sees [once = true] and is unregistered from ['a']. *)
Lemma once_flag_cross_talk_still_unregisters :
  handlers_of "a" w_cross = [7; 8; 9]
  ∧ _once w_cross !! 9 = Some false
  ∧ ∃ w', emit (TStr "a") DUndefined 0 w_cross = Some w'
          ∧ map fst (calls w') = [7; 9]
          ∧ map (λ c, Event.once c.2) (calls w') = [true; true]
          ∧ handlers_of "a" w' = [8].
Proof.
  split; [reflexivity|]. split; [reflexivity|].
  eexists. split; [vm_compute; reflexivity|]. repeat split; reflexivity.
Qed.

(** C6, amended: [_once] belongs to the function, not to the registration.
    After [once(a, handler)] and then [on(b, handler)] have both returned
    [true], [handler._once] is [false]; and where no other handler listening
    on [a] has its [_once] set, [emit(a)] calls [handler] with
    [once = false] and leaves it, and the whole array of [a], in place. *)
Theorem once_flag_shared_across_types
    (a b : string) (handler : Fn) (data : Data) (now : Z) (w w1 w2 : World) :
  once (TStr a) (HFun handler) w = (true, w1) →
  on (TStr b) (HFun handler) w1 = (true, w2) →
  a ≠ b
  ∧ _once w2 !! handler = Some false
  ∧ (no_pending_once a w →
     ∃ w3 cs,
       emit (TStr a) data now w2 = Some w3
       ∧ calls w3 = calls w2 ++ cs
       ∧ (handler, Event.new a data now) ∈ cs
       ∧ Forall (λ c, Event.once c.2 = false) cs
       ∧ handler ∈ handlers_of a w3
       ∧ handlers_of a w3 = handlers_of a w2).
Proof.
  unfold on. intros Honce Hon.
  apply once_true_inv in Honce as (Hn1 & Hhs1 & Hoth1 & Hfl1 & Hc1).
  apply addListener_true_inv in Hon as (Hn2 & Hhs2 & Hoth2 & Hfl2 & Hc2).
  assert (Hab : a ≠ b).
  { intros <-. apply Hn2. rewrite Hhs1. apply elem_of_app. right.
    by apply list_elem_of_singleton. }
  split; [done|]. split; [by rewrite Hfl2, lookup_insert_eq|].
  intros Hnp.
  assert (Hhs : handlers_of a w2 = handlers_of a w ++ [handler]).
  { rewrite <- Hhs1. unfold handlers_of. by rewrite Hoth2. }
  assert (Hnp2 : no_pending_once a w2).
  { intros h. rewrite Hhs.
    destruct (decide (h = handler)) as [->|Hne];
      [intros _; by eapply once_flag_insert_eq|].
    rewrite (once_flag_insert_ne _ _ _ _ _ Hfl2) by done.
    rewrite (once_flag_insert_ne _ _ _ _ _ Hfl1) by done.
    rewrite elem_of_app. intros [Hin|Hin]; [by apply Hnp|].
    by apply list_elem_of_singleton in Hin. }
  eexists _, _. split; [by apply emit_no_pending_once|].
  split; [done|]. rewrite handlers_of_add_calls, Hhs. repeat split.
  - rewrite map_app. apply elem_of_app. right. by apply list_elem_of_singleton.
  - generalize (handlers_of a w ++ [handler]).
    intros l. induction l; simpl; constructor; done.
  - apply elem_of_app. right. by apply list_elem_of_singleton.
Qed.

Lemma once_flag_shared_across_types_witness :
  let w1 := (once (TStr "a") (HFun 9) new_world).2 in
  let w2 := (on (TStr "b") (HFun 9) w1).2 in
  _once w1 !! 9 = Some true
  ∧ _once w2 !! 9 = Some false
  ∧ ∃ w3, emit (TStr "a") DUndefined 0 w2 = Some w3
          ∧ handlers_of "a" w3 = handlers_of "a" w2.
Proof.
  intros w1 w2. split; [reflexivity|].
  destruct (once_flag_shared_across_types "a" "b" 9 DUndefined 0 new_world w1 w2)
    as (_ & Hflag & Hfire); [reflexivity | reflexivity |].
  split; [exact Hflag|].
  destruct Hfire as (w3 & cs & He & _ & _ & _ & _ & Hhs).
  { intros h Hin. vm_compute in Hin. by apply elem_of_nil in Hin. }
  exists w3. auto.
Defined.

(** C7 (the code departs from it): [off] with a single argument that is
    neither a string nor [null]/[undefined] is not a no-op.  The string test
    of [off] comes after the one-argument branch, so [off(123)] runs
    [this._events[123] = []]: on a registry that has no entry ["123"] it
    creates one, and on a registry where a handler listens on the string
    ["123"] it throws that handler away.  [addListener] and [emit], given
    the same argument, test it first and do nothing. *)
Theorem off_single_non_string_resets_entry :
  isValidType (TOther "123") = false
  ∧ type_is_nullish (TOther "123") = false
  ∧ _events w_save !! "123"%string = None
  ∧ _events (off (TOther "123") HUndefined w_save) !! "123"%string = Some []
  ∧ off (TOther "123") HUndefined w_save ≠ w_save
  ∧ handlers_of "123" w_digits = [1]
  ∧ handlers_of "123" (off (TOther "123") HUndefined w_digits) = []
  ∧ addListener (TOther "123") (HFun 2) w_digits = (false, w_digits)
  ∧ emit (TOther "123") DUndefined 0 w_digits = Some w_digits.
Proof.
  repeat split; try reflexivity.
  intros Heq. apply (f_equal (λ w, _events w !! "123"%string)) in Heq.
  vm_compute in Heq. discriminate.
Qed.

(** C8: when [type] is not a string or [handler] is not callable,
    [addListener] (and its alias [on]) returns [false] and changes nothing;
    so does [once], which in particular sets no [_once]. *)
Theorem invalid_arguments_rejected (ty : TypeArg) (h : HandlerArg) (w : World) :
  isValidType ty = false ∨ isValidHandler h = false →
  addListener ty h w = (false, w)
  ∧ on ty h w = (false, w)
  ∧ once ty h w = (false, w).
Proof.
  intros Hinv.
  assert (Hadd : addListener ty h w = (false, w)).
  { unfold addListener. destruct Hinv as [-> | Hh]; [done|].
    rewrite Hh. by destruct (isValidType ty). }
  unfold on, once. by rewrite Hadd.
Qed.

Lemma invalid_arguments_rejected_witness :
  addListener (TOther "123") (HFun 1) w_save = (false, w_save)
  ∧ on (TOther "123") (HFun 1) w_save = (false, w_save)
  ∧ once (TOther "123") (HFun 1) w_save = (false, w_save).
Proof.
  apply (invalid_arguments_rejected (TOther "123") (HFun 1) w_save).
  left. reflexivity.
Defined.

(** C9: [off(type, handler)] on a type that has an array (empty or not) takes
    out the first entry identical to [handler] and nothing else: the entries
    before and after it keep their order, at most one entry goes, the other
    types, the [_once] properties and the log are untouched; when [handler]
    is not in the array nothing changes at all. *)
Theorem off_removes_first_match
    (type : string) (handler : Fn) (handlers : list Fn) (w : World) :
  _events w !! type = Some handlers →
  (handler ∉ handlers → off (TStr type) (HFun handler) w = w)
  ∧ (∀ l1 l2, handlers = l1 ++ handler :: l2 → handler ∉ l1 →
       _events (off (TStr type) (HFun handler) w) !! type = Some (l1 ++ l2))
  ∧ sublist (handlers_of type (off (TStr type) (HFun handler) w)) handlers
  ∧ length handlers ≤ S (length (handlers_of type (off (TStr type) (HFun handler) w)))
  ∧ (∀ type', type ≠ type' →
       _events (off (TStr type) (HFun handler) w) !! type' = _events w !! type')
  ∧ _once (off (TStr type) (HFun handler) w) = _once w
  ∧ calls (off (TStr type) (HFun handler) w) = calls w.
Proof.
  intros Hl. pose proof (handlers_of_lookup _ _ _ Hl) as Hhs.
  repeat split.
  - intros Hnin. rewrite off_handler, Hl, remove_first_absent by done.
    by rewrite insert_id, set_events_id.
  - intros l1 l2 -> Hnin. rewrite off_handler, Hl. simpl.
    by rewrite lookup_insert_eq, remove_first_split.
  - rewrite off_handler_handlers, Hhs. apply remove_first_sublist.
  - rewrite off_handler_handlers, Hhs. apply remove_first_length.
  - intros type' Hne. by apply off_handler_other.
  - apply off_once.
  - apply off_calls.
Qed.

Lemma off_removes_first_match_witness :
  _events (off (TStr "tick") (HFun 2) w_three) !! "tick"%string = Some [1; 3]
  ∧ _once (off (TStr "tick") (HFun 2) w_three) = _once w_three.
Proof.
  destruct (off_removes_first_match "tick" 2 [1; 2; 3] w_three)
    as (_ & Hsplit & _ & _ & _ & Ho & _); [reflexivity|].
  split; [|exact Ho].
  apply (Hsplit [1] [3]); [reflexivity|].
  intros Hin. apply list_elem_of_singleton in Hin. discriminate.
Defined.

(** C10: when [type] is [null] or [undefined], [off(type, handler)] throws
    the whole registry away whatever [handler] is: afterwards no type has an
    array, so a handler passed along is not removed selectively. *)
Theorem off_nullish_type_discards_registry
    (ty : TypeArg) (h : HandlerArg) (w : World) :
  ty = TNull ∨ ty = TUndefined →
  off ty h w = set_events ∅ w
  ∧ (∀ type, _events (off ty h w) !! type = None)
  ∧ (∀ type, handlers_of type (off ty h w) = []).
Proof.
  intros [-> | ->]; repeat split; intros type;
    unfold handlers_of; simpl; by rewrite lookup_empty.
Qed.

Lemma off_nullish_type_discards_registry_witness :
  handlers_of "tick" w_three = [1; 2; 3]
  ∧ off TUndefined (HFun 2) w_three = set_events ∅ w_three
  ∧ handlers_of "tick" (off TUndefined (HFun 2) w_three) = [].
Proof.
  split; [reflexivity|].
  destruct (off_nullish_type_discards_registry TUndefined (HFun 2) w_three)
    as (Heq & _ & Hnil); [by right|].
  split; [exact Heq | apply Hnil].
Defined.

(** * Further properties of the dispatch loop *)

Section Loop.

Implicit Types (w : World) (type : string) (handler : Fn) (event : Event.t).

Lemma set_once_same event : Event.set_once (Event.once event) event = event.
Proof. by destruct event. Qed.

(** The record a handler is called with. *)
Lemma dispatch_event type handler event w :
  (dispatch type handler (event, w)).1
  = Event.set_once (orb (Event.once event) (once_flag handler w)) event.
Proof.
  rewrite dispatch_eq. cbn zeta. simpl.
  destruct (once_flag handler w).
  - by rewrite orb_true_r.
  - by rewrite orb_false_r, set_once_same.
Qed.

(** Splicing the first match of the entry at index [i] moves everything
    beyond [i] one slot down. *)
Lemma remove_first_drop handler (handlers : list Fn) i :
  handlers !! i = Some handler →
  drop (S i) (remove_first handler handlers) = drop (S (S i)) handlers.
Proof.
  revert i. induction handlers as [|fn rest IH]; intros i Hi; [done|].
  simpl. destruct (Nat.eqb_spec fn handler) as [->|Hne]; [done|].
  destruct i as [|i]; [simpl in Hi; congruence|].
  simpl in Hi. by rewrite <- (IH i Hi).
Qed.

Lemma emit_loop_calls_sublist fuel type event i w w' :
  emit_loop fuel type event i w = Some w' →
  ∃ cs, calls w' = calls w ++ cs
        ∧ sublist (map fst cs) (drop i (handlers_of type w)).
Proof.
  revert event i w. induction fuel as [|fuel IH]; intros event i w;
    cbn [emit_loop].
  - destruct (handlers_of type w !! i); [done|]. intros [= <-].
    exists []. rewrite app_nil_r. split; [done | apply sublist_nil_l].
  - destruct (handlers_of type w !! i) as [handler|] eqn:Hi.
    2:{ intros [= <-]. exists []. rewrite app_nil_r.
        split; [done | apply sublist_nil_l]. }
    destruct (dispatch type handler (event, w)) as [event1 w1] eqn:Hd.
    intros (cs & Hcs & Hsub)%IH.
    apply dispatch_step in Hd as (_ & _ & Hcalls & _ & _ & Hhs).
    exists ((handler, event1) :: cs). split.
    + by rewrite Hcs, Hcalls, <- app_assoc.
    + rewrite (drop_S _ _ _ Hi). simpl. apply sublist_skip.
      rewrite Hhs in Hsub. destruct (Event.once event1); [|done].
      rewrite (remove_first_drop _ _ _ Hi) in Hsub.
      transitivity (drop (S (S i)) (handlers_of type w)); [done|].
      replace (drop (S (S i)) (handlers_of type w))
        with (drop 1 (drop (S i) (handlers_of type w)))
        by (rewrite drop_drop; f_equal; lia).
      apply sublist_drop.
Qed.

Lemma emit_loop_more_fuel fuel k type event i w w' :
  emit_loop fuel type event i w = Some w' →
  emit_loop (fuel + k) type event i w = Some w'.
Proof.
  revert event i w. induction fuel as [|fuel IH]; intros event i w;
    cbn [emit_loop].
  - destruct (handlers_of type w !! i) eqn:Hi; [done|]. intros [= <-].
    destruct k; cbn [emit_loop Nat.add]; by rewrite Hi.
  - cbn [Nat.add emit_loop].
    destruct (handlers_of type w !! i) as [handler|]; [|done].
    destruct (dispatch type handler (event, w)) as [event1 w1]. apply IH.
Qed.

(** The loop over an array without duplicates, in closed form: [pre] is what
    the iterator has left behind, [rest] what lies at its index and beyond. *)
Lemma emit_loop_walk fuel type :
  ∀ rest pre event w,
    handlers_of type w = pre ++ rest →
    NoDup (pre ++ rest) →
    length rest ≤ fuel →
    ∃ w',
      emit_loop fuel type event (length pre) w = Some w'
      ∧ calls w' =
          calls w ++ map (λ c, (c.1, Event.set_once c.2 event))
                       (walk (_once w) (Event.once event) false rest).1
      ∧ handlers_of type w' =
          pre ++ (walk (_once w) (Event.once event) false rest).2
      ∧ _once w' = _once w
      ∧ (∀ type', type ≠ type' → _events w' !! type' = _events w !! type').
Proof.
  induction fuel as [|fuel IH]; intros rest pre event w Hhs Hnd Hlen.
  - destruct rest; [|simpl in Hlen; lia]. cbn [emit_loop].
    rewrite Hhs, lookup_ge_None_2 by (rewrite length_app; simpl; lia).
    exists w. simpl. rewrite !app_nil_r in *. by rewrite Hhs.
  - destruct rest as [|handler rest].
    { cbn [emit_loop].
      rewrite Hhs, lookup_ge_None_2 by (rewrite length_app; simpl; lia).
      exists w. simpl. rewrite !app_nil_r in *. by rewrite Hhs. }
    cbn [emit_loop]. rewrite Hhs, list_lookup_middle by done.
    pose proof (dispatch_event type handler event w) as Hev.
    destruct (dispatch type handler (event, w)) as [event1 w1] eqn:Hd.
    simpl in Hev.
    apply dispatch_step in Hd as (Ho & _ & Hcalls & Hflags & Hother & Hhs1).
    unfold once_flag in Ho, Hev. cbn [walk].
    set (o := orb (Event.once event) (default false (_once w !! handler))) in *.
    assert (Hset : ∀ b, Event.set_once b event1 = Event.set_once b event)
      by (intros b; by rewrite Hev).
    rewrite Ho in Hhs1. destruct o eqn:Hoeq.
    + (* the handler is spliced out; the next entry, if any, is stepped over *)
      assert (Hnin : handler ∉ pre).
      { apply NoDup_app in Hnd as (_ & Hdisj & _). intros Hin.
        apply (Hdisj _ Hin). by left. }
      rewrite Hhs, remove_first_split in Hhs1 by done.
      destruct rest as [|x rest].
      * exists w1. cbn [walk].
        destruct fuel; cbn [emit_loop];
          rewrite Hhs1, lookup_ge_None_2 by (rewrite length_app; simpl; lia);
          by rewrite Hcalls, Hev.
      * destruct (IH rest (pre ++ [x]) event1 w1)
          as (w' & Hloop & Hc' & Hh' & Hf' & Ho').
        { by rewrite <- app_assoc. }
        { rewrite <- app_assoc. simpl.
          apply NoDup_app in Hnd as (Hnd1 & Hdisj & Hnd2).
          apply NoDup_app. split; [done|]. split.
          - intros y Hy Hin. apply (Hdisj y Hy). by right.
          - by apply NoDup_cons in Hnd2 as [_ Hnd2]. }
        { simpl in Hlen. lia. }
        rewrite length_app in Hloop. simpl in Hloop.
        replace (length pre + 1) with (S (length pre)) in Hloop by lia.
        exists w'. rewrite Hloop, Hc', Hh', Hf', Hflags, Ho, Hcalls.
        cbn [walk].
        destruct (walk (_once w) true false rest) as [cs kept] eqn:Hw.
        simpl. rewrite Hev.
        split; [done|]. split; [by rewrite <- app_assoc|].
        split; [by rewrite <- app_assoc|]. split; [done|].
        intros type' Hne. by rewrite Ho', Hother.
    + (* the handler stays; the iterator moves on to the next entry *)
      destruct (IH rest (pre ++ [handler]) event1 w1)
        as (w' & Hloop & Hc' & Hh' & Hf' & Ho').
      { by rewrite Hhs1, Hhs, <- app_assoc. }
      { by rewrite <- app_assoc. }
      { simpl in Hlen. lia. }
      rewrite length_app in Hloop. simpl in Hloop.
      replace (length pre + 1) with (S (length pre)) in Hloop by lia.
      exists w'. rewrite Hloop, Hc', Hh', Hf', Hflags, Ho, Hcalls.
      destruct (walk (_once w) false false rest) as [cs kept] eqn:Hw.
      simpl. rewrite Hev.
      split; [done|]. split; [by rewrite <- app_assoc|].
      split; [by rewrite <- app_assoc|]. split; [done|].
      intros type' Hne. by rewrite Ho', Hother.
Qed.

End Loop.

(** * One pass of [emit], in closed form *)

Section ClosedForm.

Implicit Types (w : World) (type : string) (handler : Fn) (event : Event.t).

Lemma emit_walk type data now w :
  NoDup (handlers_of type w) →
  ∃ w',
    emit (TStr type) data now w = Some w'
    ∧ calls w' =
        calls w ++ map (λ c, (c.1, Event.set_once c.2 (Event.new type data now)))
                     (walk (_once w) false false (handlers_of type w)).1
    ∧ handlers_of type w' = (walk (_once w) false false (handlers_of type w)).2
    ∧ _once w' = _once w
    ∧ (∀ type', type ≠ type' → _events w' !! type' = _events w !! type').
Proof.
  intros Hnd. unfold emit. cbn [isValidType negb].
  destruct (_events w !! type) as [handlers|] eqn:Hl.
  2:{ exists w. unfold handlers_of. rewrite Hl. simpl. by rewrite app_nil_r. }
  pose proof (handlers_of_lookup _ _ _ Hl) as Hhs.
  destruct handlers as [|fn rest].
  { exists w. rewrite Hhs. simpl. by rewrite app_nil_r. }
  change (Nat.eqb (length (fn :: rest)) 0) with false. cbv iota.
  rewrite Hhs in Hnd |- *.
  apply (emit_loop_walk (length (fn :: rest)) type (fn :: rest) []
           (Event.new type data now) w); [done | done | lia].
Qed.

Lemma walk_raised flags skip (handlers : list Fn) :
  walk flags true skip handlers
  = (map (λ handler, (handler, true)) (alternate (negb skip) handlers),
     alternate skip handlers).
Proof.
  revert skip. induction handlers as [|handler rest IH]; intros skip; [done|].
  cbn [walk alternate]. destruct skip; simpl; by rewrite IH.
Qed.

Lemma walk_persistent flags (pers rest : list Fn) :
  (∀ handler, handler ∈ pers → default false (flags !! handler) = false) →
  walk flags false false (pers ++ rest)
  = (map (λ handler, (handler, false)) pers ++ (walk flags false false rest).1,
     pers ++ (walk flags false false rest).2).
Proof.
  induction pers as [|handler pers IH]; intros Hflags; simpl.
  - by destruct (walk flags false false rest).
  - rewrite (Hflags handler) by left. simpl.
    rewrite IH by (intros h Hin; apply Hflags; by right). done.
Qed.

End ClosedForm.

Lemma handlers_of_mk_eq (type : string) (l : list Fn) m f c :
  handlers_of type {| _events := <[type := l]> m; _once := f; calls := c |} = l.
Proof. unfold handlers_of. simpl. by rewrite lookup_insert_eq. Qed.

Lemma handlers_of_mk_ne (type type' : string) (l : list Fn) m f c :
  type ≠ type' →
  handlers_of type' {| _events := <[type := l]> m; _once := f; calls := c |}
  = default [] (m !! type').
Proof. intros Hne. unfold handlers_of. simpl. by rewrite lookup_insert_ne. Qed.

(** [emit] only ever removes, and writes no [_once]. *)
Lemma emit_only_removes_aux (ty : TypeArg) (data : Data) (now : Z) (w : World) :
  ∃ w',
    emit ty data now w = Some w'
    ∧ _once w' = _once w
    ∧ (∀ type, sublist (handlers_of type w') (handlers_of type w)).
Proof.
  destruct (emit_returns ty data now w) as [w' He]. exists w'.
  destruct ty as [| |type|key]; try (by injection He as <-).
  pose proof He as (cs & Hcs & Hfl & Hother & Hsub & _)%emit_run.
  repeat split; try done.
  intros type'. destruct (decide (type = type')) as [<-|Hne]; [done|].
  unfold handlers_of. by rewrite Hother.
Qed.

(** C2: one [emit] builds one record [{type, data, timestamp: now,
    once: false}] and hands that same record to every handler it calls.  For
    a [type] whose lookup is decided by own properties and whose array has no
    duplicates, [emit] returns, and: the handlers it calls and the [once]
    each of them sees are exactly those [walk] gives for the array as it was
    (so the first handler of the array is always called, and with the record
    as built unless its own [_once] is true); every call carries the type,
    payload and timestamp of that one record; [once] is raised by the first
    called handler whose [_once] is true and stays raised for every later
    call; a handler called with [once = true] is spliced out of the array of
    [type] right after its call and is not in it when [emit] returns, and
    what is in the array then is exactly what [walk] leaves. *)
Theorem emit_shares_one_event (type : string) (data : Data) (now : Z) (w : World) :
  own_lookup type w = true →
  NoDup (handlers_of type w) →
  ∃ w' cs,
    emit (TStr type) data now w = Some w'
    ∧ calls w' = calls w ++ cs
    ∧ map (λ c, (c.1, Event.once c.2)) cs
      = (walk (_once w) false false (handlers_of type w)).1
    ∧ handlers_of type w' = (walk (_once w) false false (handlers_of type w)).2
    ∧ (∀ handler rest,
         handlers_of type w = handler :: rest →
         ∃ cs', cs = (handler, Event.set_once (once_flag handler w)
                                 (Event.new type data now)) :: cs')
    ∧ Forall (λ c, Event.type c.2 = type ∧ Event.data c.2 = data
                   ∧ Event.timestamp c.2 = now) cs
    ∧ map (λ c, Event.once c.2) cs = observed (_once w) false (map fst cs)
    ∧ (∀ cs1 c cs2, cs = cs1 ++ c :: cs2 → once_flag c.1 w = true →
         Forall (λ c', Event.once c'.2 = true) (c :: cs2))
    ∧ (∀ c, c ∈ cs → Event.once c.2 = true → c.1 ∉ handlers_of type w')
    ∧ (∀ handler event w0 event' w0',
         NoDup (handlers_of type w0) →
         dispatch type handler (event, w0) = (event', w0') →
         Event.once event' = true → handler ∉ handlers_of type w0').
Proof.
  intros _ Hnd.
  destruct (emit_walk type data now w Hnd) as (w' & He & Hc & Hh & _).
  destruct (emit_run _ _ _ _ _ He) as (cs & Hcs & _ & _ & _ & Hall & Hobs & Hgone).
  assert (Hcs' : cs = map (λ c, (c.1, Event.set_once c.2 (Event.new type data now)))
                        (walk (_once w) false false (handlers_of type w)).1).
  { rewrite Hcs in Hc. by apply app_inv_head in Hc. }
  exists w', cs. split; [done|]. split; [done|]. split.
  { rewrite Hcs', map_map. simpl.
    rewrite <- (map_id (walk _ _ _ _).1) at 2. apply map_ext. by intros []. }
  split; [done|]. split.
  { intros handler rest Hhs. rewrite Hcs', Hhs. cbn [walk]. simpl.
    destruct (walk (_once w) _ _ rest) as [cs0 kept]. simpl.
    unfold once_flag. eauto. }
  repeat split; try done.
  - intros cs1 c cs2 -> Hflag. by eapply observed_sticky.
  - by apply Hgone.
  - intros handler event w0 event' w0' Hnd0 Hd Ho.
    apply dispatch_step in Hd as (_ & _ & _ & _ & _ & ->).
    rewrite Ho. by apply remove_first_gone.
Qed.

Lemma emit_shares_one_event_witness :
  own_lookup "tick" w_three = true
  ∧ NoDup (handlers_of "tick" w_three)
  ∧ ∃ w' cs,
      emit (TStr "tick") (DNum 7) 1000 w_three = Some w'
      ∧ calls w' = calls w_three ++ cs
      ∧ map (λ c, (c.1, Event.once c.2)) cs = [(1, true); (3, true)]
      ∧ handlers_of "tick" w' = [2].
Proof.
  assert (Hnd : NoDup (handlers_of "tick" w_three)).
  { change (NoDup [1; 2; 3]). apply NoDup_ListNoDup. repeat constructor; simpl; lia. }
  split; [reflexivity|]. split; [exact Hnd|].
  destruct (emit_shares_one_event "tick" (DNum 7) 1000 w_three eq_refl Hnd)
    as (w' & cs & He & Hc & Hw & Hh & _).
  exists w', cs. split; [exact He|]. split; [exact Hc|].
  split; [exact Hw | exact Hh].
Defined.

(** * Further properties *)



(** X2: from the first one-shot handler of the array on, [emit] calls every
    other handler and leaves the ones in between alone.  When the array is
    [pers ++ first :: rest], without duplicates, no handler of [pers] is
    one-shot and [first] is, then the handlers of [pers] are called with
    [once = false] and stay; [first] and every second handler after it are
    called with [once = true] and removed; the handlers in between are
    neither called nor removed. *)
Theorem emit_from_first_one_shot
    (type : string) (data : Data) (now : Z) (w : World)
    (pers rest : list Fn) (first : Fn) :
  handlers_of type w = pers ++ first :: rest →
  NoDup (handlers_of type w) →
  (∀ handler, handler ∈ pers → once_flag handler w = false) →
  once_flag first w = true →
  ∃ w',
    emit (TStr type) data now w = Some w'
    ∧ calls w' =
        calls w
        ++ map (λ handler, (handler, Event.new type data now)) pers
        ++ map (λ handler, (handler, Event.set_once true (Event.new type data now)))
             (alternate true (first :: rest))
    ∧ handlers_of type w' = pers ++ alternate false (first :: rest).
Proof.
  intros Hhs Hnd Hpers Hfirst.
  destruct (emit_walk type data now w Hnd) as (w' & He & Hc & Hh & _).
  exists w'. split; [done|].
  rewrite Hhs, walk_persistent in Hc, Hh by done.
  cbn [walk] in Hc, Hh. unfold once_flag in Hfirst.
  rewrite Hfirst in Hc, Hh. simpl in Hc, Hh.
  rewrite walk_raised in Hc, Hh. simpl in Hc, Hh.
  split; [|done]. rewrite Hc. f_equal.
  rewrite map_app, !map_map. simpl. rewrite map_map. done.
Qed.

Lemma emit_from_first_one_shot_witness :
  ∃ w',
    emit (TStr "load") DUndefined 0 w_four_once = Some w'
    ∧ map fst (calls w') = [1; 3]
    ∧ handlers_of "load" w' = [2; 4].
Proof.
  destruct (emit_from_first_one_shot "load" DUndefined 0 w_four_once [] [2; 3; 4] 1)
    as (w' & He & Hc & Hh).
  - reflexivity.
  - change (NoDup [1; 2; 3; 4]). apply NoDup_ListNoDup.
    repeat constructor; simpl; lia.
  - intros handler Hin. by apply elem_of_nil in Hin.
  - reflexivity.
  - exists w'. split; [exact He|]. split; [by rewrite Hc | by rewrite Hh].
Defined.

(** X3: whatever the registry (duplicates or not), one [emit] on a type
    whose lookup is decided by own properties returns, and calls only
    handlers that were in the array of [type] when it began, in the order
    they had there, and none more often than it occurred there: the handlers
    called are a sub-sequence of that array. *)
Theorem emit_calls_only_registered
    (type : string) (data : Data) (now : Z) (w : World) :
  own_lookup type w = true →
  ∃ w' cs,
    emit (TStr type) data now w = Some w'
    ∧ calls w' = calls w ++ cs
    ∧ sublist (map fst cs) (handlers_of type w)
    ∧ length cs ≤ length (handlers_of type w)
    ∧ (NoDup (handlers_of type w) → NoDup (map fst cs)).
Proof.
  intros _.
  assert (Hnil : ∀ l : list Fn, ∃ (w' : World) (cs : list (Fn * Event.t)),
            Some w = Some w' ∧ calls w' = calls w ++ cs
            ∧ sublist (map fst cs) l ∧ length cs ≤ length l
            ∧ (NoDup l → NoDup (map fst cs))).
  { intros l. exists w, []. rewrite app_nil_r. simpl.
    repeat split; try done; [apply sublist_nil_l | lia | constructor]. }
  unfold emit. simpl.
  destruct (_events w !! type) as [handlers|] eqn:Hl; [|apply Hnil].
  destruct (Nat.eqb (length handlers) 0); [apply Hnil|].
  destruct (emit_loop_returns (length handlers) type (Event.new type data now) 0 w)
    as [w' Hloop].
  { rewrite (handlers_of_lookup _ _ _ Hl). lia. }
  rewrite Hloop. apply emit_loop_calls_sublist in Hloop as (cs & Hcs & Hsub).
  rewrite drop_0 in Hsub. exists w', cs. repeat split; try done.
  - apply sublist_length in Hsub. by rewrite length_map in Hsub.
  - intros Hnd. by eapply sublist_NoDup.
Qed.

Lemma emit_calls_only_registered_witness :
  ∃ w' cs,
    emit (TStr "load") DUndefined 0 w_four_once = Some w'
    ∧ calls w' = calls w_four_once ++ cs
    ∧ sublist (map fst cs) [1; 2; 3; 4].
Proof.
  destruct (emit_calls_only_registered "load" DUndefined 0 w_four_once)
    as (w' & cs & He & Hc & Hsub & _); [reflexivity|].
  exists w', cs. split; [exact He|]. split; [exact Hc | exact Hsub].
Defined.



(** X6: the loop of [emit] ends within as many iterations as the array has
    entries beyond the index: with that much fuel it returns, and any extra
    fuel gives the same result. *)
Theorem emit_loop_fuel_irrelevant
    (fuel : nat) (type : string) (event : Event.t) (i : nat) (w : World) :
  length (handlers_of type w) ≤ fuel + i →
  ∃ w', emit_loop fuel type event i w = Some w'
        ∧ ∀ k, emit_loop (fuel + k) type event i w = Some w'.
Proof.
  intros Hlen. destruct (emit_loop_returns fuel type event i w Hlen) as [w' He].
  exists w'. split; [done|]. intros k. by apply emit_loop_more_fuel.
Qed.

Lemma emit_loop_fuel_irrelevant_witness :
  ∃ w', emit_loop 3 "tick" (Event.new "tick" DUndefined 0) 0 w_three = Some w'
        ∧ emit_loop 10 "tick" (Event.new "tick" DUndefined 0) 0 w_three = Some w'.
Proof.
  destruct (emit_loop_fuel_irrelevant 3 "tick" (Event.new "tick" DUndefined 0) 0
              w_three) as (w' & He & Hk).
  { vm_compute. lia. }
  exists w'. split; [exact He | exact (Hk 7)].
Defined.





(** X9: in a registry without duplicates, [off] is idempotent, whatever its
    arguments: doing it a second time changes nothing. *)
Theorem off_idempotent (ty : TypeArg) (h : HandlerArg) (w : World) :
  registry_unique w →
  off ty h (off ty h w) = off ty h w.
Proof.
  intros Hu. destruct (type_is_nullish ty) eqn:Hnt.
  { unfold off. by rewrite Hnt. }
  destruct (handler_is_nullish h) eqn:Hnh.
  { unfold off. rewrite Hnt, Hnh. unfold set_events. simpl.
    by rewrite insert_insert_eq. }
  destruct ty as [| |type|key], h as [| |handler|]; try done.
  rewrite !off_handler.
  destruct (_events w !! type) as [handlers|] eqn:Hl; [|by rewrite Hl].
  cbn [set_events _events]. rewrite lookup_insert_eq.
  unfold set_events. simpl. rewrite insert_insert_eq.
  rewrite (remove_first_absent handler (remove_first handler handlers)); [done|].
  apply remove_first_gone. rewrite <- (handlers_of_lookup _ _ _ Hl). apply Hu.
Qed.

Lemma off_idempotent_witness :
  off (TStr "tick") (HFun 2) (off (TStr "tick") (HFun 2) w_three)
  = off (TStr "tick") (HFun 2) w_three.
Proof.
  apply off_idempotent.
  unfold w_three, on.
  repeat first [apply addListener_unique | apply once_unique].
  apply registry_unique_new.
Defined.

(** X10: a handler already listening on [type] keeps its mode.  Registering
    it again, by [on] or by [once], returns [false] and changes nothing: [once]
    does not turn a persistent listener into a one-shot one, and [on] does
    not turn a one-shot listener into a persistent one. *)
Theorem registered_handler_keeps_mode (type : string) (handler : Fn) (w : World) :
  handler ∈ handlers_of type w →
  addListener (TStr type) (HFun handler) w = (false, w)
  ∧ on (TStr type) (HFun handler) w = (false, w)
  ∧ once (TStr type) (HFun handler) w = (false, w).
Proof.
  intros Hin. unfold on. rewrite once_present, addListener_present by done. done.
Qed.

Lemma registered_handler_keeps_mode_witness :
  once_flag 2 w_three = false
  ∧ once (TStr "tick") (HFun 2) w_three = (false, w_three)
  ∧ once_flag 1 w_three = true
  ∧ on (TStr "tick") (HFun 1) w_three = (false, w_three).
Proof.
  split; [reflexivity|].
  destruct (registered_handler_keeps_mode "tick" 2 w_three) as (_ & _ & Honce).
  { change (2 ∈ [1; 2; 3]). right. left. }
  split; [exact Honce|]. split; [reflexivity|].
  destruct (registered_handler_keeps_mode "tick" 1 w_three) as (_ & Hon & _).
  { change (1 ∈ [1; 2; 3]). left. }
  exact Hon.
Defined.

(** X11: [off] with both arguments given (neither [null] nor [undefined])
    never creates or drops an entry of the table; it does nothing at all when
    [type] is not a string, when [handler] is not a function, and when
    [type] has no array. *)
Theorem off_pair_keeps_entries (ty : TypeArg) (h : HandlerArg) (w : World) :
  type_is_nullish ty = false →
  handler_is_nullish h = false →
  dom (_events (off ty h w)) = dom (_events w)
  ∧ (isValidType ty = false ∨ isValidHandler h = false → off ty h w = w)
  ∧ (_events w !! property_key ty = None → off ty h w = w).
Proof.
  intros Hnt Hnh. unfold off. rewrite Hnt, Hnh.
  destruct ty as [| |type|key], h as [| |handler|]; try done. simpl.
  destruct (_events w !! type) as [handlers|] eqn:Hl; [|done].
  destruct (Nat.eqb (length handlers) 0); [repeat split; done|].
  simpl. split; [|split].
  - apply dom_insert_lookup_L. by rewrite Hl.
  - intros [?|?]; discriminate.
  - intros ?; discriminate.
Qed.

Lemma off_pair_keeps_entries_witness :
  off (TOther "7") (HFun 1) w_three = w_three
  ∧ off (TStr "tick") HOther w_three = w_three
  ∧ off (TStr "nope") (HFun 1) w_three = w_three.
Proof.
  destruct (off_pair_keeps_entries (TOther "7") (HFun 1) w_three)
    as (_ & Hinv1 & _); [reflexivity | reflexivity |].
  destruct (off_pair_keeps_entries (TStr "tick") HOther w_three)
    as (_ & Hinv2 & _); [reflexivity | reflexivity |].
  destruct (off_pair_keeps_entries (TStr "nope") (HFun 1) w_three)
    as (_ & _ & Hnone); [reflexivity | reflexivity |].
  split; [apply Hinv1; by left|]. split; [apply Hinv2; by right|].
  apply Hnone. reflexivity.
Defined.

(** X12: registering calls no handler and is local.  [addListener], [on] and
    [once] leave the log alone, never shorten an array, and change neither
    the array of another type nor the [_once] of another function. *)
Theorem registration_is_local (ty : TypeArg) (h : HandlerArg) (w : World) :
  (calls (addListener ty h w).2 = calls w
   ∧ calls (on ty h w).2 = calls w
   ∧ calls (once ty h w).2 = calls w)
  ∧ (∀ type,
       ty ≠ TStr type →
       handlers_of type (addListener ty h w).2 = handlers_of type w
       ∧ handlers_of type (once ty h w).2 = handlers_of type w)
  ∧ (∀ type,
       handlers_of type w `prefix_of` handlers_of type (addListener ty h w).2
       ∧ handlers_of type w `prefix_of` handlers_of type (once ty h w).2)
  ∧ (∀ handler,
       h ≠ HFun handler →
       _once (addListener ty h w).2 !! handler = _once w !! handler
       ∧ _once (once ty h w).2 !! handler = _once w !! handler).
Proof.
  unfold on.
  destruct ty as [| |type|key], h as [| |handler|];
    try (by repeat split).
  destruct (decide (handler ∈ handlers_of type w)) as [Hin|Hnin].
  { rewrite once_present, addListener_present by done. by repeat split. }
  rewrite once_absent, addListener_absent by done. simpl.
  split; [done|]. split; [|split].
  - intros type' Hne. assert (type ≠ type') by congruence.
    by rewrite !handlers_of_mk_ne.
  - intros type'. destruct (decide (type = type')) as [<-|Hne].
    + rewrite !handlers_of_mk_eq. split; by apply prefix_app_r.
    + by rewrite !handlers_of_mk_ne.
  - intros handler' Hne. assert (handler ≠ handler') by congruence.
    by rewrite !lookup_insert_ne.
Qed.

Lemma flags_defined_new : flags_defined new_world.
Proof.
  intros type handler Hin. unfold handlers_of in Hin. simpl in Hin.
  rewrite lookup_empty in Hin. by apply elem_of_nil in Hin.
Qed.

Lemma flags_defined_kept (w : World) :
  flags_defined w →
  (∀ ty h, flags_defined (addListener ty h w).2)
  ∧ (∀ ty h, flags_defined (on ty h w).2)
  ∧ (∀ ty h, flags_defined (once ty h w).2)
  ∧ (∀ ty h, flags_defined (off ty h w))
  ∧ (∀ ty h, flags_defined (removeListener ty h w))
  ∧ (∀ ty data now, ∃ w', emit ty data now w = Some w' ∧ flags_defined w').
Proof.
  intros Hfd.
  assert (Hreg : ∀ ty h,
            flags_defined (addListener ty h w).2
            ∧ flags_defined (once ty h w).2).
  { intros ty h.
    destruct ty as [| |type|key], h as [| |handler|]; try (by split).
    destruct (decide (handler ∈ handlers_of type w)) as [Hin|Hnin].
    { by rewrite once_present, addListener_present. }
    rewrite once_absent, addListener_absent by done. simpl.
    assert (Hgen : ∀ b,
              flags_defined
                {| _events := <[type := handlers_of type w ++ [handler]]> (_events w);
                   _once := <[handler := b]> (_once w);
                   calls := calls w |}).
    { intros b type' handler' Hin. simpl.
      destruct (decide (handler = handler')) as [<-|Hneh];
        [rewrite lookup_insert_eq; eauto|].
      rewrite lookup_insert_ne by done.
      destruct (decide (type = type')) as [<-|Hne].
      - rewrite handlers_of_mk_eq in Hin.
        apply elem_of_app in Hin as [Hin|Hin%list_elem_of_singleton];
          [by eapply Hfd | congruence].
      - rewrite handlers_of_mk_ne in Hin by done. by eapply Hfd. }
    split; apply Hgen. }
  assert (Hsub : ∀ w', _once w' = _once w →
            (∀ type, sublist (handlers_of type w') (handlers_of type w)) →
            flags_defined w').
  { intros w' Hfl Hsub type handler Hin. rewrite Hfl.
    eapply Hfd, elem_of_sublist; [exact Hin | apply Hsub]. }
  assert (Hoff : ∀ ty h, flags_defined (off ty h w)).
  { intros ty h. apply Hsub; [apply off_once|]. intros type.
    unfold off. destruct (type_is_nullish ty).
    { unfold handlers_of at 1. simpl. rewrite lookup_empty. apply sublist_nil_l. }
    destruct (handler_is_nullish h).
    { destruct (decide (property_key ty = type)) as [<-|Hne].
      - rewrite handlers_of_set_events_eq. apply sublist_nil_l.
      - by rewrite handlers_of_set_events_ne. }
    destruct ty as [| |type0|key], h as [| |handler|]; try done. simpl.
    destruct (_events w !! type0) as [handlers|] eqn:Hl; [|done].
    destruct (Nat.eqb (length handlers) 0); [done|].
    destruct (decide (type0 = type)) as [<-|Hne].
    - rewrite handlers_of_set_events_eq, off_scan_remove_first,
        (handlers_of_lookup _ _ _ Hl).
      apply remove_first_sublist.
    - by rewrite handlers_of_set_events_ne. }
  repeat split; try (intros ty h; first [apply Hreg | apply Hoff]).
  intros ty data now.
  destruct (emit_only_removes_aux ty data now w) as (w' & He & Hfl & Hs).
  exists w'. split; [done|]. by apply Hsub.
Qed.



Lemma registration_is_local_witness :
  handlers_of "save" (once (TStr "tick") (HFun 8) w_three).2
  = handlers_of "save" w_three
  ∧ _once (once (TStr "tick") (HFun 8) w_three).2 !! 1 = _once w_three !! 1.
Proof.
  destruct (registration_is_local (TStr "tick") (HFun 8) w_three)
    as (_ & Htypes & _ & Hflags).
  split.
  - apply (Htypes "save"%string). discriminate.
  - apply (Hflags 1). discriminate.
Defined.




(** X15: whatever sequence of [addListener], [on], [once], [off],
    [removeListener] and [emit] is applied to a new emitter, no handler ever
    occurs twice under a type and every handler in the table has its [_once]
    written. *)
Theorem reachable_invariants (w : World) :
  reachable w → registry_unique w ∧ flags_defined w.
Proof.
  induction 1 as [|w w' Hreach [Hu Hfd] Hstep].
  - split; [apply registry_unique_new | apply flags_defined_new].
  - destruct (flags_defined_kept w Hfd) as (Hf1 & Hf2 & Hf3 & Hf4 & Hf5 & Hf6).
    inversion Hstep as [ty h w0|ty h w0|ty h w0|ty h w0|ty h w0
                       |ty data now w0 w0' He]; subst.
    + split; [by apply addListener_unique | apply Hf1].
    + split; [by apply addListener_unique | apply Hf2].
    + split; [by apply once_unique | apply Hf3].
    + split; [by apply off_unique | apply Hf4].
    + split; [by apply off_unique | apply Hf5].
    + split; [by eapply emit_unique|].
      destruct (Hf6 ty data now) as (w'' & He' & Hfd').
      rewrite He in He'. by injection He' as <-.
Qed.

Lemma reachable_invariants_witness :
  registry_unique w_cross ∧ flags_defined w_cross.
Proof.
  apply reachable_invariants. unfold w_cross.
  repeat first [ eapply reachable_step; [|apply step_on]
               | eapply reachable_step; [|apply step_once] ].
  apply reachable_new.
Defined.

(** X16: the cross-talk of [_once] the other way round.  After
    [on(a, handler)] and then [once(b, handler)] have both returned [true],
    [handler._once] is [true]: where no other handler listening on [a] is
    one-shot, [emit(a)] calls [handler] with [once = true] and removes it
    from [a], although it was registered there with [on]; it stays
    registered on [b]. *)
Theorem on_then_once_elsewhere
    (a b : string) (handler : Fn) (data : Data) (now : Z) (w w1 w2 : World) :
  on (TStr a) (HFun handler) w = (true, w1) →
  once (TStr b) (HFun handler) w1 = (true, w2) →
  a ≠ b
  ∧ once_flag handler w2 = true
  ∧ (no_pending_once a w →
     ∃ w3,
       emit (TStr a) data now w2 = Some w3
       ∧ calls w3 =
           calls w2
           ++ map (λ h, (h, Event.new a data now)) (handlers_of a w)
           ++ [(handler, Event.set_once true (Event.new a data now))]
       ∧ handlers_of a w3 = handlers_of a w
       ∧ (handler ∉ handlers_of a w3)
       ∧ handler ∈ handlers_of b w3).
Proof.
  unfold on. intros Hon Honce.
  apply addListener_true_inv in Hon as (Hn1 & Hhs1 & Hoth1 & Hfl1 & Hc1).
  apply once_true_inv in Honce as (Hn2 & Hhs2 & Hoth2 & Hfl2 & Hc2).
  assert (Hab : a ≠ b).
  { intros <-. apply Hn2. rewrite Hhs1. apply elem_of_app. right.
    by apply list_elem_of_singleton. }
  split; [done|]. split; [by eapply once_flag_insert_eq|].
  intros Hnp.
  assert (Hhs : handlers_of a w2 = handlers_of a w ++ [handler]).
  { rewrite <- Hhs1. unfold handlers_of. rewrite Hoth2; [done | congruence]. }
  assert (Hflags : ∀ h, h ∈ handlers_of a w → once_flag h w2 = false).
  { intros h Hin. assert (h ≠ handler) by (intros ->; done).
    rewrite (once_flag_insert_ne _ _ _ _ _ Hfl2) by done.
    rewrite (once_flag_insert_ne _ _ _ _ _ Hfl1) by done. by apply Hnp. }
  eexists. split.
  { apply (emit_once_last a data now w2 (handlers_of a w) handler); try done.
    by eapply once_flag_insert_eq. }
  rewrite handlers_of_set_events_eq.
  split; [done|]. split; [done|]. split; [done|].
  unfold handlers_of at 1. simpl. rewrite lookup_insert_ne by done.
  fold (handlers_of b w2). rewrite Hhs2.
  apply elem_of_app. right. by apply list_elem_of_singleton.
Qed.

Lemma on_then_once_elsewhere_witness :
  let w1 := (on (TStr "a") (HFun 9) new_world).2 in
  let w2 := (once (TStr "b") (HFun 9) w1).2 in
  once_flag 9 w2 = true
  ∧ ∃ w3, emit (TStr "a") DUndefined 0 w2 = Some w3
          ∧ handlers_of "a" w3 = []
          ∧ 9 ∈ handlers_of "b" w3.
Proof.
  intros w1 w2.
  destruct (on_then_once_elsewhere "a" "b" 9 DUndefined 0 new_world w1 w2)
    as (_ & Hflag & Hfire); [reflexivity | reflexivity |].
  split; [exact Hflag|].
  destruct Hfire as (w3 & He & _ & Hha & _ & Hhb).
  { intros h Hin. vm_compute in Hin. by apply elem_of_nil in Hin. }
  exists w3. split; [exact He|]. split; [exact Hha | exact Hhb].
Defined.





